(** * restinio: the WebSocket connection and its outgoing queue

    A shallow embedding of [dev/restinio/impl/ws_connection.hpp]:
    the queue of outgoing buffers ([ws_outgoing_data_t]) and the write and
    close paths of [ws_connection_t].

    Conventions of the embedding.
    - A [buffers_container_t] (a vector of buffers) is a [list]; a vector
      that has been moved from is the empty list.
    - A member function that mutates its object takes the object and
      returns the new one; the functions of the connection live in a small
      monad that threads the connection, collects what the connection does
      to the outside (log calls, the socket, the close handler) as a list
      of events, and stops at a failed [assert].
    - The logger and the socket are collaborators: a call to one of them
      is an event and returns normally. The close handler is user code:
      the functions of the connection are given first for a handler that
      returns and leaves the connection alone, where its call is an event
      too, and then ([Reentrant]) for a handler that calls back into the
      connection or throws. *)

From Stdlib Require Import List String Bool Arith Lia NArith.
Import ListNotations.
Local Open Scope string_scope.
Local Open Scope list_scope.

Set Implicit Arguments.

(** ** ws_outgoing_data_t: a queue for outgoing buffers *)

Module Queue.
Section Queue.

Variable buffer_storage_t : Type.

Definition buffers_container_t := list buffer_storage_t.

(** [std::vector::emplace_back]. *)
Definition emplace_back (b : buffer_storage_t) (v : buffers_container_t)
  : buffers_container_t :=
  v ++ [b].

(** [for( auto & buf : src ) dst.emplace_back( std::move( buf ) )]. *)
Definition emplace_back_each (src dst : buffers_container_t)
  : buffers_container_t :=
  fold_left (fun acc buf => emplace_back buf acc) src dst.

(** [v.erase( v.begin(), v.begin() + n )]. *)
Definition erase_front (n : nat) (v : buffers_container_t)
  : buffers_container_t :=
  skipn n v.

(** [std::vector::empty]. *)
Definition empty (v : buffers_container_t) : bool :=
  match v with [] => true | _ :: _ => false end.

Record ws_outgoing_data_t := mk_ws_outgoing_data {
  (** Flag is set when user initiates close. *)
  m_close_when_done : bool;
  (** A queue of buffers. *)
  m_awaiting_buffers : buffers_container_t
}.

(** The default member initialisers: flag down, no buffers. *)
Definition new_queue : ws_outgoing_data_t :=
  mk_ws_outgoing_data false [].

(** [append]: [None] is the failed [assert( !m_close_when_done )]. *)
Definition append (bufs : buffers_container_t) (q : ws_outgoing_data_t)
  : option ws_outgoing_data_t :=
  if m_close_when_done q then None
  else if empty (m_awaiting_buffers q) then
    Some (mk_ws_outgoing_data (m_close_when_done q) bufs)
  else
    Some (mk_ws_outgoing_data (m_close_when_done q)
            (emplace_back_each bufs (m_awaiting_buffers q))).

(** [pop_ready_buffers( max_buf_count, bufs )]: the second argument is
    the caller's container as it is on entry; the result is that
    container on exit and the queue on exit. *)
Definition pop_ready_buffers (max_buf_count : nat)
    (bufs : buffers_container_t) (q : ws_outgoing_data_t)
  : buffers_container_t * ws_outgoing_data_t :=
  if (List.length (m_awaiting_buffers q) <=? max_buf_count)%nat then
    (m_awaiting_buffers q, mk_ws_outgoing_data (m_close_when_done q) [])
  else
    (emplace_back_each (firstn max_buf_count (m_awaiting_buffers q)) bufs,
     mk_ws_outgoing_data (m_close_when_done q)
       (erase_front max_buf_count (m_awaiting_buffers q))).

Definition close_when_done (q : ws_outgoing_data_t) : bool :=
  m_close_when_done q.

Definition set_close_when_done (q : ws_outgoing_data_t)
  : ws_outgoing_data_t :=
  mk_ws_outgoing_data true (m_awaiting_buffers q).

(** *** Runs of queue operations

    A client of the queue appends and pops in any order; every pop is
    given a fresh, empty container and its result is recorded. *)

Inductive queue_op :=
| q_append (bufs : buffers_container_t)
| q_pop_ready (max_buf_count : nat).

Fixpoint run_queue (ops : list queue_op) (q : ws_outgoing_data_t)
  : option (list buffers_container_t * ws_outgoing_data_t) :=
  match ops with
  | [] => Some ([], q)
  | q_append bufs :: ops' =>
      match append bufs q with
      | None => None
      | Some q1 => run_queue ops' q1
      end
  | q_pop_ready n :: ops' =>
      let (got, q1) := pop_ready_buffers n [] q in
      match run_queue ops' q1 with
      | None => None
      | Some (rest, q2) => Some (got :: rest, q2)
      end
  end.

(** What a run submits, in submission order. *)
Fixpoint submitted (ops : list queue_op) : buffers_container_t :=
  match ops with
  | [] => []
  | q_append bufs :: ops' => bufs ++ submitted ops'
  | q_pop_ready _ :: ops' => submitted ops'
  end.

End Queue.
End Queue.

Arguments Queue.q_pop_ready {buffer_storage_t} max_buf_count.

(** ** raw_resp_output_ctx_t: the write that is under way *)

Module OutputCtx.
Section OutputCtx.

Variable buffer_storage_t : Type.

(** The most buffers one write takes from the queue ([max_iov_len] of the
    output context); its value is not fixed here. *)
Variable max_iov_len : nat.

(** Modelled from the spec: the class is declared in
    [restinio/impl/raw_resp_output_ctx.hpp], which is not part of the
    sources at hand. It holds the staged buffers of the write under way
    and a transmitting flag. *)
Record raw_resp_output_ctx_t := mk_raw_resp_output_ctx {
  m_bufs : Queue.buffers_container_t buffer_storage_t;
  m_transmitting : bool
}.

(** Modelled from the spec: a fresh context of [raw_resp_output_ctx.hpp]
    stages nothing and transmits nothing. *)
Definition new_output_ctx : raw_resp_output_ctx_t :=
  mk_raw_resp_output_ctx [] false.

(** Modelled from the spec: [transmitting()] of [raw_resp_output_ctx.hpp],
    true iff a write is currently outstanding on the socket. *)
Definition transmitting (ctx : raw_resp_output_ctx_t) : bool :=
  m_transmitting ctx.

(** Modelled from the spec: [obtain_bufs( queue )] of
    [raw_resp_output_ctx.hpp] pulls a bunch of buffers from the queue, via
    [pop_ready_buffers], into the staging area of the context and returns
    whether any buffers were obtained. *)
Definition obtain_bufs (queue : Queue.ws_outgoing_data_t buffer_storage_t)
    (ctx : raw_resp_output_ctx_t)
  : bool * raw_resp_output_ctx_t * Queue.ws_outgoing_data_t buffer_storage_t :=
  let (bufs, queue') :=
    Queue.pop_ready_buffers max_iov_len (m_bufs ctx) queue in
  (negb (Queue.empty bufs),
   mk_raw_resp_output_ctx bufs (m_transmitting ctx),
   queue').

(** Modelled from the spec: [create_bufs()] of [raw_resp_output_ctx.hpp]
    returns the descriptors of the staged buffers for one vectored write.
    The write is issued with what it returns, so the write is outstanding
    from this call on and the transmitting flag goes up here. *)
Definition create_bufs (ctx : raw_resp_output_ctx_t)
  : Queue.buffers_container_t buffer_storage_t * raw_resp_output_ctx_t :=
  (m_bufs ctx, mk_raw_resp_output_ctx (m_bufs ctx) true).

(** Modelled from the spec: [done()] of [raw_resp_output_ctx.hpp] marks
    the write complete, releases the staged buffers and clears the
    transmitting flag. *)
Definition done (ctx : raw_resp_output_ctx_t) : raw_resp_output_ctx_t :=
  mk_raw_resp_output_ctx [] false.

End OutputCtx.
End OutputCtx.

(** ** ws_connection_t: context for handling websocket connections *)

(** The socket, as far as the connection looks at it. *)
Record stream_socket_t := mk_stream_socket {
  is_open : bool
}.

(** A handler is a [std::function]-like value, seen through its
    [operator bool]: [true] while it holds a callable, [false] when it is
    empty (default-constructed). Calling it is an event. *)
Definition message_handler_t := bool.
Definition close_handler_t := bool.

(** [std::error_code] as [after_write] tells its values apart. *)
Inductive error_code :=
| ec_success
| ec_operation_aborted
| ec_failure (message : string).

Inductive log_level := trace | warn | error.

(** The messages of the connection, without their formatting. *)
Inductive log_message :=
| msg_start_connection
| msg_start_reading_header
| msg_close_operation_error (what : string)
| msg_unable_to_init_read (what : string)
| msg_unable_to_write_data (what : string)
| msg_write_while_socket_closed
| msg_write_after_websocket_closed
| msg_sending_resp_data (buf_count : nat)
| msg_after_write_callback_error (what : string)
| msg_outgoing_data_sent
| msg_unable_to_write (what : string)
| msg_close.

(** The [try]/[catch] blocks that turn an exception into a notification. *)
Inductive catch_site :=
| catch_close
| catch_init_read
| catch_write_data
| catch_after_write.

Section Connection.

Variable buffer_storage_t : Type.
Variable max_iov_len : nat.

Local Abbreviation buffers_container_t := (Queue.buffers_container_t buffer_storage_t).
Local Abbreviation ws_outgoing_data_t := (Queue.ws_outgoing_data_t buffer_storage_t).
Local Abbreviation raw_resp_output_ctx_t :=
  (OutputCtx.raw_resp_output_ctx_t buffer_storage_t).

(** What the connection does to its collaborators. *)
Inductive event :=
| ev_log (level : log_level) (conn_id : N) (msg : log_message)
| ev_close_handler (reason : string)
| ev_async_read_some
| ev_async_write (bufs : buffers_container_t)
| ev_socket_shutdown_both
| ev_socket_close.

Record ws_connection_t := mk_ws_connection {
  connection_id : N;
  (** Connection. *)
  m_socket : stream_socket_t;
  m_msg_handler : message_handler_t;
  m_close_handler : close_handler_t;
  (** Write to socket operation context. *)
  m_resp_out_ctx : raw_resp_output_ctx_t;
  (** Output buffers queue. *)
  m_awaiting_buffers : ws_outgoing_data_t
}.

Definition with_socket (s : stream_socket_t) (c : ws_connection_t) :=
  mk_ws_connection (connection_id c) s (m_msg_handler c)
    (m_close_handler c) (m_resp_out_ctx c) (m_awaiting_buffers c).

Definition with_close_handler (h : close_handler_t) (c : ws_connection_t) :=
  mk_ws_connection (connection_id c) (m_socket c) (m_msg_handler c)
    h (m_resp_out_ctx c) (m_awaiting_buffers c).

Definition with_resp_out_ctx (x : raw_resp_output_ctx_t)
    (c : ws_connection_t) :=
  mk_ws_connection (connection_id c) (m_socket c) (m_msg_handler c)
    (m_close_handler c) x (m_awaiting_buffers c).

Definition with_awaiting_buffers (q : ws_outgoing_data_t)
    (c : ws_connection_t) :=
  mk_ws_connection (connection_id c) (m_socket c) (m_msg_handler c)
    (m_close_handler c) (m_resp_out_ctx c) q.

(** *** The monad of the member functions

    [None] is a failed [assert]; otherwise a result, the connection after
    the call and the events of the call, oldest first. *)
Definition action (A : Type) : Type :=
  ws_connection_t -> option (A * ws_connection_t * list event).

Definition ret (A : Type) (a : A) : action A :=
  fun c => Some (a, c, []).

Definition bind (A B : Type) (m : action A) (k : A -> action B) : action B :=
  fun c =>
    match m c with
    | None => None
    | Some (a, c1, t1) =>
        match k a c1 with
        | None => None
        | Some (b, c2, t2) => Some (b, c2, t1 ++ t2)
        end
    end.

Definition gets (A : Type) (f : ws_connection_t -> A) : action A :=
  fun c => Some (f c, c, []).

Definition modify (f : ws_connection_t -> ws_connection_t) : action unit :=
  fun c => Some (tt, f c, []).

Definition emit (e : event) : action unit :=
  fun c => Some (tt, c, [e]).

Definition assertion_failed (A : Type) : action A :=
  fun _ => None.

Notation "x <- m ;; k" := (bind m (fun x => k))
  (at level 61, m at next level, right associativity).
Notation "m ;; k" := (bind m (fun _ => k))
  (at level 61, right associativity).

(** [m_logger.trace/warn/error( [&]{ return fmt::format( ... ) } )]. *)
Definition log (level : log_level) (msg : log_message) : action unit :=
  id <- gets connection_id ;;
  emit (ev_log level id msg).

(** The constructor. Its initialiser list sets the socket, the settings,
    the input buffer, the message handler and the logger; it does not
    mention [m_close_handler], which is therefore default-constructed,
    whatever [close_handler] is passed. *)
Definition new_connection (conn_id : N) (socket : stream_socket_t)
    (msg_handler : message_handler_t) (close_handler : close_handler_t)
  : ws_connection_t * list event :=
  (mk_ws_connection conn_id socket msg_handler false
     (OutputCtx.new_output_ctx buffer_storage_t)
     (Queue.new_queue buffer_storage_t),
   [ev_log trace conn_id msg_start_connection]).

(** [call_close_handler( reason )], for a handler that returns and leaves
    the connection alone; [Reentrant.call_close_handler] is the function
    for any handler. *)
Definition call_close_handler (reason : string) : action unit :=
  h <- gets m_close_handler ;;
  if h then
    emit (ev_close_handler reason) ;;
    modify (with_close_handler false)
  else ret tt.

(** [trigger_error_and_close( reason, msg_builder )]. *)
Definition trigger_error_and_close (reason : string) (msg : log_message)
  : action unit :=
  log error msg ;;
  call_close_handler reason.

(** [close_impl()]: standard close routine. *)
Definition close_impl : action unit :=
  log trace msg_close ;;
  emit ev_socket_shutdown_both ;;
  emit ev_socket_close ;;
  modify (with_socket (mk_stream_socket false)).

(** [m_resp_out_ctx.obtain_bufs( m_awaiting_buffers )]. *)
Definition obtain_bufs : action bool :=
  fun c =>
    match OutputCtx.obtain_bufs max_iov_len
            (m_awaiting_buffers c) (m_resp_out_ctx c) with
    | (got, ctx, queue) =>
        Some (got, with_awaiting_buffers queue (with_resp_out_ctx ctx c), [])
    end.

(** [m_resp_out_ctx.create_bufs()]. *)
Definition create_bufs : action buffers_container_t :=
  fun c =>
    let (bufs, ctx) := OutputCtx.create_bufs (m_resp_out_ctx c) in
    Some (bufs, with_resp_out_ctx ctx c, []).

(** [init_write_if_necessary()]: check if there is something to write,
    and if so start a write operation. *)
Definition init_write_if_necessary : action unit :=
  busy <- gets (fun c => OutputCtx.transmitting (m_resp_out_ctx c)) ;;
  if negb busy then
    got <- obtain_bufs ;;
    if got then
      bufs <- create_bufs ;;
      log trace (msg_sending_resp_data (List.length bufs)) ;;
      emit (ev_async_write bufs)
    else
      closing <- gets (fun c => Queue.close_when_done (m_awaiting_buffers c)) ;;
      if closing then
        call_close_handler "user initiated" ;;
        close_impl
      else ret tt
  else ret tt.

(** [m_awaiting_buffers.append( std::move( bufs ) )]. *)
Definition append (bufs : buffers_container_t) : action unit :=
  q <- gets m_awaiting_buffers ;;
  match Queue.append bufs q with
  | None => assertion_failed unit
  | Some q' => modify (with_awaiting_buffers q')
  end.

(** [write_data_impl( bufs )]. Its first line, [assert( m_socket )], is
    about the socket object, which the connection holds by value; it is
    taken to hold. *)
Definition write_data_impl (bufs : buffers_container_t) : action unit :=
  open <- gets (fun c => is_open (m_socket c)) ;;
  if negb open then
    log warn msg_write_while_socket_closed
  else
    closing <- gets (fun c => Queue.close_when_done (m_awaiting_buffers c)) ;;
    if closing then
      log warn msg_write_after_websocket_closed
    else
      append bufs ;;
      init_write_if_necessary.

(** [after_write( ec, written )]: handle write response finished. *)
Definition after_write (ec : error_code) (written : nat) : action unit :=
  match ec with
  | ec_success =>
      modify (fun c => with_resp_out_ctx (OutputCtx.done (m_resp_out_ctx c)) c) ;;
      log trace msg_outgoing_data_sent ;;
      open <- gets (fun c => is_open (m_socket c)) ;;
      if open then init_write_if_necessary else ret tt
  | ec_operation_aborted => ret tt
  | ec_failure message =>
      trigger_error_and_close message (msg_unable_to_write message)
  end.

(** [graceful_close()]. *)
Definition graceful_close : action unit :=
  closing <- gets (fun c => Queue.close_when_done (m_awaiting_buffers c)) ;;
  if negb closing then
    modify (fun c =>
      with_awaiting_buffers
        (Queue.set_close_when_done (m_awaiting_buffers c)) c) ;;
    init_write_if_necessary
  else ret tt.

(** [start_read_header()]. *)
Definition start_read_header : action unit :=
  log trace msg_start_reading_header ;;
  emit ev_async_read_some.

(** [after_read_header( ec, length )]: both branches are empty. *)
Definition after_read_header (ec : error_code) (length : nat) : action unit :=
  ret tt.

(** The handlers of the [catch( const std::exception & ex )] blocks, with
    [what] for [ex.what()]. *)
Definition on_exception (site : catch_site) (what : string) : action unit :=
  match site with
  | catch_close => log error (msg_close_operation_error what)
  | catch_init_read =>
      trigger_error_and_close what (msg_unable_to_init_read what)
  | catch_write_data =>
      trigger_error_and_close what (msg_unable_to_write_data what)
  | catch_after_write =>
      trigger_error_and_close what (msg_after_write_callback_error what)
  end.

(** *** Executions of a connection

    What runs on the strand of a connection, one callback at a time: the
    bodies dispatched by [close], [init_read] and [write_data], the
    completion callbacks of reads and writes, and the exception handlers.
    An exception is not part of a body here: the handler of a [catch]
    block is a callback of its own, which may run in any state. *)
Inductive op :=
| op_close
| op_init_read
| op_write_data (bufs : buffers_container_t)
| op_write_completed (ec : error_code) (written : nat)
| op_read_completed (ec : error_code) (length : nat)
| op_exception (site : catch_site) (what : string).

Definition perform (o : op) : action unit :=
  match o with
  | op_close => graceful_close
  | op_init_read => start_read_header
  | op_write_data bufs => write_data_impl bufs
  | op_write_completed ec written => after_write ec written
  | op_read_completed ec length => after_read_header ec length
  | op_exception site what => on_exception site what
  end.

Definition is_async_write (e : event) : bool :=
  match e with ev_async_write _ => true | _ => false end.

Definition is_close_handler (e : event) : bool :=
  match e with ev_close_handler _ => true | _ => false end.

Definition is_socket_close (e : event) : bool :=
  match e with ev_socket_close => true | _ => false end.

Definition is_socket_shutdown (e : event) : bool :=
  match e with ev_socket_shutdown_both => true | _ => false end.

Definition is_error_log (e : event) : bool :=
  match e with ev_log error _ _ => true | _ => false end.

(** How many events of a kind a trace holds. *)
Definition count (p : event -> bool) (tr : list event) : nat :=
  List.length (filter p tr).

(** A connection together with the writes it has issued and that have not
    completed yet, and everything it has done so far. *)
Record world := mk_world {
  conn : ws_connection_t;
  writes_in_flight : nat;
  history : list event
}.

(** The completion of a write takes one write out of flight. *)
Definition completes_write (o : op) : nat :=
  match o with op_write_completed _ _ => 1 | _ => 0 end.

(** One callback. A write completion is delivered only for a write in
    flight; without one the world stays as it is. [None] is a failed
    [assert]. *)
Definition step (o : op) (w : world) : option world :=
  if (completes_write o =? 1)%nat && (writes_in_flight w =? 0)%nat then Some w
  else
    match perform o (conn w) with
    | None => None
    | Some (_, c, tr) =>
        Some (mk_world c
                (writes_in_flight w - completes_write o
                 + count is_async_write tr)
                (history w ++ tr))
    end.

Fixpoint run (ops : list op) (w : world) : option world :=
  match ops with
  | [] => Some w
  | o :: ops' =>
      match step o w with
      | None => None
      | Some w' => run ops' w'
      end
  end.

(** A flag as a number of occurrences. *)
Definition b2n (b : bool) : nat := if b then 1 else 0.

(** A connection that has not done anything yet. *)
Definition start (c : ws_connection_t) : world :=
  mk_world c 0 [].

(** *** What a trace and a run carry *)

(** The buffers handed to [asio::async_write], in the order of the
    writes. *)
Definition written (tr : list event) : buffers_container_t :=
  flat_map (fun e => match e with ev_async_write bufs => bufs | _ => [] end)
    tr.

(** The buffers passed to [write_data], in the order of the calls. *)
Definition submitted_data (ops : list op) : buffers_container_t :=
  flat_map (fun o => match o with op_write_data bufs => bufs | _ => [] end)
    ops.

Definition is_op_close (o : op) : bool :=
  match o with op_close => true | _ => false end.

(** What [write_data_impl] takes from a call: the buffers, if the socket
    is open and close has not been requested. *)
Definition accepted (o : op) (c : ws_connection_t) : buffers_container_t :=
  match o with
  | op_write_data bufs =>
      if is_open (m_socket c)
         && negb (Queue.close_when_done (m_awaiting_buffers c))
      then bufs else []
  | _ => []
  end.

(** The staging area of the output context holds buffers only while a
    write is under way. *)
Definition staging_clear (c : ws_connection_t) : Prop :=
  OutputCtx.transmitting (m_resp_out_ctx c) = false ->
  OutputCtx.m_bufs (m_resp_out_ctx c) = [].

(** A write carries at least one buffer and at most [max_iov_len]. *)
Definition write_size_ok (e : event) : Prop :=
  match e with
  | ev_async_write bufs =>
      1 <= List.length bufs /\ List.length bufs <= max_iov_len
  | _ => True
  end.

(** The socket has not been closed, or it has been closed once and the
    connection is at rest. *)
Definition closed_once (w : world) : Prop :=
  (count is_socket_close (history w) = 0
   /\ count is_socket_shutdown (history w) = 0)
  \/ (count is_socket_close (history w) = 1
      /\ count is_socket_shutdown (history w) = 1
      /\ is_open (m_socket (conn w)) = false
      /\ Queue.close_when_done (m_awaiting_buffers (conn w)) = true
      /\ writes_in_flight w = 0).

(** *** The two outcomes of a flush *)

(** The connection after [init_write_if_necessary] has started a write
    from a clear staging area. *)
Definition writing (c : ws_connection_t) : ws_connection_t :=
  with_awaiting_buffers
    (Queue.mk_ws_outgoing_data
       (Queue.m_close_when_done (m_awaiting_buffers c))
       (skipn max_iov_len (Queue.m_awaiting_buffers (m_awaiting_buffers c))))
    (with_resp_out_ctx
       (OutputCtx.mk_raw_resp_output_ctx
          (firstn max_iov_len
             (Queue.m_awaiting_buffers (m_awaiting_buffers c)))
          true)
       c).

(** The events of that call. *)
Definition write_events (c : ws_connection_t) : list event :=
  [ev_log trace (connection_id c)
     (msg_sending_resp_data
        (List.length
           (firstn max_iov_len
              (Queue.m_awaiting_buffers (m_awaiting_buffers c)))));
   ev_async_write
     (firstn max_iov_len (Queue.m_awaiting_buffers (m_awaiting_buffers c)))].

(** The connection after the close of a drained connection, and the
    events of the close. *)
Definition closed (c : ws_connection_t) : ws_connection_t :=
  mk_ws_connection (connection_id c) (mk_stream_socket false)
    (m_msg_handler c) false
    (OutputCtx.mk_raw_resp_output_ctx [] false)
    (Queue.mk_ws_outgoing_data true []).

Definition close_events (c : ws_connection_t) : list event :=
  (if m_close_handler c then [ev_close_handler "user initiated"] else [])
  ++ [ev_log trace (connection_id c) msg_close;
      ev_socket_shutdown_both;
      ev_socket_close].

End Connection.

(** ** Reading a payload *)

(** The read that [start_read_payload( payload_data, length_remaining )]
    issues with [async_read_some]: where the bytes go, as an offset into
    the storage of the message, and how many are asked for. *)
Record payload_read := mk_payload_read {
  payload_data : nat;
  length_remaining : nat
}.

(** The completion handler of that read, called with [ec] and [length].
    The branch [if( ec )] is empty. With fewer bytes than asked for,
    [start_read_payload] is called for the rest ([Some (Some r)], the next
    read); otherwise [assert( length == length_remaining )] and the
    payload is complete ([Some None]); [None] is the failed assert. *)
Definition after_read_payload (ec : error_code) (length : nat)
    (r : payload_read) : option (option payload_read) :=
  if (length <? length_remaining r)%nat then
    Some (Some (mk_payload_read (payload_data r + length)
                  (length_remaining r - length)))
  else if (length =? length_remaining r)%nat then Some None
  else None.

(** The reads of one payload: [start_read_payload] followed by the
    completions in the order they arrive. The result is the reads
    issued, oldest first, and whether the payload is complete; [None] is
    the failed assert. Completions after the last read are not
    delivered. *)
Fixpoint read_payload (completions : list (error_code * nat))
    (r : payload_read) : option (list payload_read * bool) :=
  match completions with
  | [] => Some ([r], false)
  | (ec, length) :: rest =>
      match after_read_payload ec length r with
      | None => None
      | Some None => Some ([r], true)
      | Some (Some r') =>
          match read_payload rest r' with
          | None => None
          | Some (reads, complete) => Some (r :: reads, complete)
          end
      end
  end.

(** The bytes that the completions before the [n]-th deliver. *)
Definition delivered (n : nat) (completions : list (error_code * nat)) : nat :=
  list_sum (map snd (firstn n completions)).

Arguments ev_log {buffer_storage_t} level conn_id msg.
Arguments ev_close_handler {buffer_storage_t} reason.
Arguments ev_async_read_some {buffer_storage_t}.
Arguments ev_socket_shutdown_both {buffer_storage_t}.
Arguments ev_socket_close {buffer_storage_t}.
Arguments op_close {buffer_storage_t}.
Arguments op_init_read {buffer_storage_t}.
Arguments op_write_completed {buffer_storage_t} ec written.
Arguments op_read_completed {buffer_storage_t} ec length.
Arguments op_exception {buffer_storage_t} site what.

(** ** The close handler as user code

    The definitions above treat a call of the close handler as an event
    after which the connection goes on: they describe a handler that
    returns and does not touch the connection. A handler is user code. It
    may call the public member functions of the connection, and as it
    runs on the strand of the connection, [asio::dispatch] runs the
    dispatched body at once, inside the handler; and it may throw. The
    functions between a callback and [call_close_handler] are given here
    once more with such a handler, together with the [try]/[catch] blocks
    around them. *)

Module Reentrant.
Section Reentrant.

Variable buffer_storage_t : Type.
Variable max_iov_len : nat.

Local Abbreviation buffers_container_t :=
  (Queue.buffers_container_t buffer_storage_t).
Local Abbreviation ws_connection_t := (ws_connection_t buffer_storage_t).
Local Abbreviation event := (event buffer_storage_t).

(** A call that user code makes on the connection. *)
Inductive user_call :=
| user_close
| user_init_read
| user_write_data (bufs : buffers_container_t).

(** What the callable in [m_close_handler] does when it is called: its
    calls on the connection, in order, and then whether it returns
    ([None]) or throws ([Some what]). *)
Record handler_code := mk_handler_code {
  calls : list user_call;
  throws : option string
}.

(** The handler that only returns. *)
Definition quiet : handler_code := mk_handler_code [] None.

Variable code : handler_code.

(** How a member function ends: it returns, it throws, it fails an
    [assert], or the nesting of handler calls exceeds the fuel. *)
Inductive result (A : Type) :=
| returned (a : A) (c : ws_connection_t) (tr : list event)
| thrown (what : string) (c : ws_connection_t) (tr : list event)
| assertion_violated
| fuel_exhausted.

Arguments returned {A} a c tr.
Arguments thrown {A} what c tr.
Arguments assertion_violated {A}.
Arguments fuel_exhausted {A}.

Definition task (A : Type) : Type := ws_connection_t -> result A.

(** The events of a call that has run first go in front. *)
Definition after_events (A : Type) (t1 : list event) (r : result A)
  : result A :=
  match r with
  | returned a c tr => returned a c (t1 ++ tr)
  | thrown what c tr => thrown what c (t1 ++ tr)
  | assertion_violated => assertion_violated
  | fuel_exhausted => fuel_exhausted
  end.

Definition pure (A : Type) (a : A) : task A :=
  fun c => returned a c [].

Definition and_then (A B : Type) (m : task A) (k : A -> task B) : task B :=
  fun c =>
    match m c with
    | returned a c1 t1 => after_events t1 (k a c1)
    | thrown what c1 t1 => thrown what c1 t1
    | assertion_violated => assertion_violated
    | fuel_exhausted => fuel_exhausted
    end.

(** [throw]. *)
Definition throw (A : Type) (what : string) : task A :=
  fun c => thrown what c [].

(** [try { m } catch( const std::exception & ex ) { handler ex.what() }]. *)
Definition try_catch (A : Type) (m : task A) (handler : string -> task A)
  : task A :=
  fun c =>
    match m c with
    | thrown what c1 t1 => after_events t1 (handler what c1)
    | r => r
    end.

(** A member function that does not reach the close handler, as given
    above. *)
Definition lift (A : Type) (m : action buffer_storage_t A) : task A :=
  fun c =>
    match m c with
    | Some (a, c1, t1) => returned a c1 t1
    | None => assertion_violated
    end.

Notation "x <- m ;; k" := (and_then m (fun x => k))
  (at level 61, m at next level, right associativity).
Notation "m ;; k" := (and_then m (fun _ => k))
  (at level 61, right associativity).

(** *** The member functions, with [call_close_handler] to be given *)

Section Body.

Variable call_close_handler : string -> task unit.

(** [trigger_error_and_close( reason, msg_builder )]. *)
Definition trigger_error_and_close (reason : string) (msg : log_message)
  : task unit :=
  lift (log error msg) ;;
  call_close_handler reason.

(** [init_write_if_necessary()]. *)
Definition init_write_if_necessary : task unit :=
  busy <- lift (gets (fun c => OutputCtx.transmitting (m_resp_out_ctx c))) ;;
  if negb busy then
    got <- lift (obtain_bufs max_iov_len) ;;
    if got then
      bufs <- lift (@create_bufs buffer_storage_t) ;;
      lift (log trace (msg_sending_resp_data (List.length bufs))) ;;
      lift (emit (ev_async_write bufs))
    else
      closing <- lift (gets (fun c =>
                   Queue.close_when_done (m_awaiting_buffers c))) ;;
      if closing then
        call_close_handler "user initiated" ;;
        lift (@close_impl buffer_storage_t)
      else pure tt
  else pure tt.

(** [write_data_impl( bufs )]. *)
Definition write_data_impl (bufs : buffers_container_t) : task unit :=
  open <- lift (gets (fun c => is_open (m_socket c))) ;;
  if negb open then
    lift (log warn msg_write_while_socket_closed)
  else
    closing <- lift (gets (fun c =>
                 Queue.close_when_done (m_awaiting_buffers c))) ;;
    if closing then
      lift (log warn msg_write_after_websocket_closed)
    else
      lift (append bufs) ;;
      init_write_if_necessary.

(** [after_write( ec, written )]. *)
Definition after_write (ec : error_code) (written : nat) : task unit :=
  match ec with
  | ec_success =>
      lift (modify (fun c =>
              with_resp_out_ctx (OutputCtx.done (m_resp_out_ctx c)) c)) ;;
      lift (log trace msg_outgoing_data_sent) ;;
      open <- lift (gets (fun c => is_open (m_socket c))) ;;
      if open then init_write_if_necessary else pure tt
  | ec_operation_aborted => pure tt
  | ec_failure message =>
      trigger_error_and_close message (msg_unable_to_write message)
  end.

(** [graceful_close()]. *)
Definition graceful_close : task unit :=
  closing <- lift (gets (fun c =>
               Queue.close_when_done (m_awaiting_buffers c))) ;;
  if negb closing then
    lift (modify (fun c =>
            with_awaiting_buffers
              (Queue.set_close_when_done (m_awaiting_buffers c)) c)) ;;
    init_write_if_necessary
  else pure tt.

(** The body that [close()] dispatches. *)
Definition close : task unit :=
  try_catch graceful_close
    (fun what => lift (log error (msg_close_operation_error what))).

(** The body that [init_read()] dispatches. *)
Definition init_read : task unit :=
  try_catch (lift (@start_read_header buffer_storage_t))
    (fun what =>
       trigger_error_and_close what (msg_unable_to_init_read what)).

(** The body that [write_data( bufs )] dispatches. *)
Definition write_data (bufs : buffers_container_t) : task unit :=
  try_catch (write_data_impl bufs)
    (fun what =>
       trigger_error_and_close what (msg_unable_to_write_data what)).

(** The completion handler that [init_write_if_necessary] gives to
    [asio::async_write]. *)
Definition write_completed (ec : error_code) (written : nat) : task unit :=
  try_catch (after_write ec written)
    (fun what =>
       trigger_error_and_close what (msg_after_write_callback_error what)).

(** The handlers of the [catch] blocks, for an exception that the body
    of a dispatched call throws by itself. *)
Definition on_exception (site : catch_site) (what : string) : task unit :=
  match site with
  | catch_close => lift (log error (msg_close_operation_error what))
  | catch_init_read =>
      trigger_error_and_close what (msg_unable_to_init_read what)
  | catch_write_data =>
      trigger_error_and_close what (msg_unable_to_write_data what)
  | catch_after_write =>
      trigger_error_and_close what (msg_after_write_callback_error what)
  end.

(** One call of user code on the connection. *)
Definition run_user_call (u : user_call) : task unit :=
  match u with
  | user_close => close
  | user_init_read => init_read
  | user_write_data bufs => write_data bufs
  end.

Fixpoint run_user_calls (us : list user_call) : task unit :=
  match us with
  | [] => pure tt
  | u :: us' => run_user_call u ;; run_user_calls us'
  end.

(** One callback on the strand. *)
Definition callback (o : op buffer_storage_t) : task unit :=
  match o with
  | op_close => close
  | op_init_read => init_read
  | op_write_data bufs => write_data bufs
  | op_write_completed ec written => write_completed ec written
  | op_read_completed ec length => lift (after_read_header ec length)
  | op_exception site what => on_exception site what
  end.

End Body.

(** [call_close_handler( reason )]: the handler is called while
    [m_close_handler] still holds it, and is cleared when it has
    returned. The calls that the handler makes reach
    [call_close_handler] with one handler call less to spare. *)
Fixpoint call_close_handler (fuel : nat) (reason : string) : task unit :=
  fun c =>
    if m_close_handler c then
      match fuel with
      | 0 => fuel_exhausted
      | S fuel' =>
          (lift (emit (ev_close_handler reason)) ;;
           run_user_calls (call_close_handler fuel') (calls code) ;;
           match throws code with
           | Some what => throw unit what
           | None => pure tt
           end ;;
           lift (modify (with_close_handler false))) c
      end
    else returned tt c [].


End Reentrant.
End Reentrant.

Arguments Reentrant.returned {buffer_storage_t A} a c tr.
Arguments Reentrant.thrown {buffer_storage_t A} what c tr.
Arguments Reentrant.user_close {buffer_storage_t}.
Arguments Reentrant.user_init_read {buffer_storage_t}.

(** ** Sample data

    Buffers are strings here and a write takes up to 64 of them. *)

Definition sample_queue : Queue.ws_outgoing_data_t string :=
  Queue.mk_ws_outgoing_data false ["g1"; "g2"; "g3"].

Definition sample_ops : list (Queue.queue_op string) :=
  [Queue.q_append ["g1"]; Queue.q_append ["g2"; "g3"];
   Queue.q_pop_ready 2; Queue.q_append ["g4"]; Queue.q_pop_ready 10].

(** A connection as the constructor makes it, given a close handler. *)
Definition fresh_connection : ws_connection_t string :=
  fst (new_connection string 7 (mk_stream_socket true) true true).

(** The same with the close handler stored. *)
Definition notifying_connection : ws_connection_t string :=
  with_close_handler true fresh_connection.

(** [set_close_when_done()] on the queue of a connection. *)
Definition request_close (c : ws_connection_t string) : ws_connection_t string :=
  with_awaiting_buffers (Queue.set_close_when_done (m_awaiting_buffers c)) c.

(** A connection with the write of one buffer in flight and another
    buffer waiting. *)
Definition writing_connection : ws_connection_t string :=
  mk_ws_connection 7 (mk_stream_socket true) true true
    (OutputCtx.mk_raw_resp_output_ctx ["g1"] true)
    (Queue.mk_ws_outgoing_data false ["g2"]).



(** An open, idle connection with three buffers waiting. *)
Definition loaded_connection : ws_connection_t string :=
  mk_ws_connection 7 (mk_stream_socket true) true true
    (OutputCtx.mk_raw_resp_output_ctx [] false)
    (Queue.mk_ws_outgoing_data false ["g1"; "g2"; "g3"]).

(** A payload of ten bytes at offset 100, delivered in three parts. *)
Definition sample_read : payload_read := mk_payload_read 100 10.

Definition sample_completions : list (error_code * nat) :=
  [(ec_success, 3); (ec_success, 2); (ec_success, 5)].

(** ** Facts about the queue *)

Section QueueFacts.

Variable buffer_storage_t : Type.

Local Abbreviation buffers_container_t :=
  (Queue.buffers_container_t buffer_storage_t).
Local Abbreviation ws_outgoing_data_t :=
  (Queue.ws_outgoing_data_t buffer_storage_t).

Lemma emplace_back_each_app (src dst : buffers_container_t) :
  Queue.emplace_back_each src dst = dst ++ src.
Proof.
  unfold Queue.emplace_back_each.
  revert dst; induction src as [|b src IH]; intros dst; simpl.
  - now rewrite app_nil_r.
  - rewrite IH. unfold Queue.emplace_back. now rewrite <- app_assoc.
Qed.

Lemma empty_true_iff (v : buffers_container_t) :
  Queue.empty v = true <-> v = [].
Proof. destruct v; simpl; split; congruence. Qed.

(** The two paths of [pop_ready_buffers], with the loop and the erase
    written as list operations. *)
Lemma pop_ready_buffers_bulk (n : nat) (bufs : buffers_container_t)
    (q : ws_outgoing_data_t) :
  List.length (Queue.m_awaiting_buffers q) <= n ->
  Queue.pop_ready_buffers n bufs q =
    (Queue.m_awaiting_buffers q,
     Queue.mk_ws_outgoing_data (Queue.m_close_when_done q) []).
Proof.
  intros H. unfold Queue.pop_ready_buffers.
  now rewrite (proj2 (Nat.leb_le _ _) H).
Qed.

Lemma pop_ready_buffers_partial (n : nat) (bufs : buffers_container_t)
    (q : ws_outgoing_data_t) :
  n < List.length (Queue.m_awaiting_buffers q) ->
  Queue.pop_ready_buffers n bufs q =
    (bufs ++ firstn n (Queue.m_awaiting_buffers q),
     Queue.mk_ws_outgoing_data (Queue.m_close_when_done q)
       (skipn n (Queue.m_awaiting_buffers q))).
Proof.
  intros H. unfold Queue.pop_ready_buffers.
  rewrite (proj2 (Nat.leb_gt _ _) H).
  now rewrite emplace_back_each_app.
Qed.

(** [append] on a queue that is not closing: the new sequence goes after
    what the queue holds. *)
Lemma append_open (bufs : buffers_container_t) (q : ws_outgoing_data_t) :
  Queue.m_close_when_done q = false ->
  Queue.append bufs q =
    Some (Queue.mk_ws_outgoing_data false (Queue.m_awaiting_buffers q ++ bufs)).
Proof.
  intros H. unfold Queue.append. rewrite H.
  destruct (Queue.empty (Queue.m_awaiting_buffers q)) eqn:E.
  - apply empty_true_iff in E. now rewrite E.
  - now rewrite emplace_back_each_app.
Qed.

(** A pop with a fresh container hands out a prefix of the queue and keeps
    the rest. *)
Lemma pop_ready_buffers_split (n : nat) (q : ws_outgoing_data_t) :
  fst (Queue.pop_ready_buffers n [] q)
    ++ Queue.m_awaiting_buffers (snd (Queue.pop_ready_buffers n [] q))
  = Queue.m_awaiting_buffers q
  /\ Queue.m_close_when_done (snd (Queue.pop_ready_buffers n [] q))
     = Queue.m_close_when_done q.
Proof.
  destruct (Nat.le_gt_cases (List.length (Queue.m_awaiting_buffers q)) n)
    as [H|H].
  - rewrite (pop_ready_buffers_bulk [] q H). simpl.
    now rewrite app_nil_r.
  - rewrite (pop_ready_buffers_partial [] q H). simpl.
    now rewrite firstn_skipn.
Qed.

Lemma run_queue_fifo (ops : list (Queue.queue_op buffer_storage_t))
    (q : ws_outgoing_data_t) :
  Queue.m_close_when_done q = false ->
  exists rs q',
    Queue.run_queue ops q = Some (rs, q')
    /\ Queue.m_close_when_done q' = false
    /\ List.concat rs ++ Queue.m_awaiting_buffers q'
       = Queue.m_awaiting_buffers q ++ Queue.submitted ops.
Proof.
  revert q; induction ops as [|o ops IH]; intros q Hq; simpl.
  - exists [], q. simpl. now rewrite app_nil_r.
  - destruct o as [bufs|n].
    + rewrite (append_open bufs q Hq).
      destruct (IH (Queue.mk_ws_outgoing_data false
                      (Queue.m_awaiting_buffers q ++ bufs)) eq_refl)
        as (rs & q' & Hrun & Hflag & Heq).
      exists rs, q'. simpl in Heq. now rewrite Hrun, Heq, <- app_assoc.
    + destruct (pop_ready_buffers_split n q) as [Hsplit Hflag].
      destruct (Queue.pop_ready_buffers n [] q) as [got q1]. simpl in *.
      destruct (IH q1) as (rs & q' & Hrun & Hflag' & Heq); [congruence|].
      exists (got :: rs), q'. rewrite Hrun. simpl.
      now rewrite <- app_assoc, Heq, app_assoc, Hsplit.
Qed.

(** C6. Popping with a bound of at least the queue's size hands out the
    whole queue and leaves it empty; popping [max_buf_count] buffers from a
    longer queue hands out exactly the first [max_buf_count] buffers, in
    order (they are what the call adds to the container it is given, and
    all of a fresh container), and leaves the other
    [size - max_buf_count] buffers in the queue in their order. *)
Theorem pop_ready_buffers_fifo (max_buf_count : nat) (q : ws_outgoing_data_t) :
  (List.length (Queue.m_awaiting_buffers q) <= max_buf_count ->
   forall bufs,
     Queue.pop_ready_buffers max_buf_count bufs q =
       (Queue.m_awaiting_buffers q,
        Queue.mk_ws_outgoing_data (Queue.m_close_when_done q) []))
  /\ (max_buf_count < List.length (Queue.m_awaiting_buffers q) ->
      (forall bufs,
         Queue.pop_ready_buffers max_buf_count bufs q =
           (bufs ++ firstn max_buf_count (Queue.m_awaiting_buffers q),
            Queue.mk_ws_outgoing_data (Queue.m_close_when_done q)
              (skipn max_buf_count (Queue.m_awaiting_buffers q))))
      /\ Queue.pop_ready_buffers max_buf_count [] q =
           (firstn max_buf_count (Queue.m_awaiting_buffers q),
            Queue.mk_ws_outgoing_data (Queue.m_close_when_done q)
              (skipn max_buf_count (Queue.m_awaiting_buffers q)))
      /\ List.length (firstn max_buf_count (Queue.m_awaiting_buffers q))
         = max_buf_count
      /\ List.length (skipn max_buf_count (Queue.m_awaiting_buffers q))
         = List.length (Queue.m_awaiting_buffers q) - max_buf_count
      /\ firstn max_buf_count (Queue.m_awaiting_buffers q)
           ++ skipn max_buf_count (Queue.m_awaiting_buffers q)
         = Queue.m_awaiting_buffers q).
Proof.
  split.
  - intros H bufs. now apply pop_ready_buffers_bulk.
  - intros H. repeat split.
    + intros bufs. now apply pop_ready_buffers_partial.
    + now rewrite pop_ready_buffers_partial.
    + rewrite length_firstn. lia.
    + apply length_skipn.
    + apply firstn_skipn.
Qed.

(** C7. The FIFO law. Appending to an empty queue adopts the sequence,
    appending to a queue that holds buffers puts the sequence after them;
    and for every run of appends and pops on a fresh queue, the results of
    the pops, in order, followed by what is left are the submitted
    buffers in submission order, so pops that empty the queue give back
    exactly what was submitted. *)
Theorem append_pop_fifo :
  (forall (bufs : buffers_container_t) (q : ws_outgoing_data_t),
     Queue.m_close_when_done q = false ->
     (Queue.m_awaiting_buffers q = [] ->
      Queue.append bufs q = Some (Queue.mk_ws_outgoing_data false bufs))
     /\ Queue.append bufs q =
          Some (Queue.mk_ws_outgoing_data false
                  (Queue.m_awaiting_buffers q ++ bufs)))
  /\ (forall ops : list (Queue.queue_op buffer_storage_t),
      exists rs q',
        Queue.run_queue ops (Queue.new_queue buffer_storage_t) = Some (rs, q')
        /\ List.concat rs ++ Queue.m_awaiting_buffers q' = Queue.submitted ops
        /\ (Queue.m_awaiting_buffers q' = [] ->
            List.concat rs = Queue.submitted ops)).
Proof.
  split.
  - intros bufs q Hq. split.
    + intros He. rewrite (append_open bufs q Hq), He. reflexivity.
    + now apply append_open.
  - intros ops.
    destruct (@run_queue_fifo ops (Queue.new_queue buffer_storage_t) eq_refl)
      as (rs & q' & Hrun & _ & Heq).
    exists rs, q'. simpl in Heq. repeat split; trivial.
    intros He. now rewrite He, app_nil_r in Heq.
Qed.

(** C10. The two paths of [pop_ready_buffers] treat the caller's container
    differently: the bulk path replaces its content by the queue's, the
    partial path puts the popped buffers after its content. With a
    container that is not empty the bulk path therefore loses the
    container's buffers, where the partial path keeps them. *)
Theorem pop_ready_buffers_container_asymmetry (max_buf_count : nat)
    (bufs : buffers_container_t) (q : ws_outgoing_data_t) :
  bufs <> [] ->
  (List.length (Queue.m_awaiting_buffers q) <= max_buf_count ->
   fst (Queue.pop_ready_buffers max_buf_count bufs q)
     = Queue.m_awaiting_buffers q
   /\ fst (Queue.pop_ready_buffers max_buf_count bufs q)
     <> bufs ++ Queue.m_awaiting_buffers q)
  /\ (max_buf_count < List.length (Queue.m_awaiting_buffers q) ->
      fst (Queue.pop_ready_buffers max_buf_count bufs q)
        = bufs ++ firstn max_buf_count (Queue.m_awaiting_buffers q)).
Proof.
  intros Hne. split; intros H.
  - rewrite (pop_ready_buffers_bulk bufs q H). simpl. split; [reflexivity|].
    intros E. apply (f_equal (@List.length _)) in E.
    rewrite length_app in E.
    destruct bufs; [congruence | simpl in E; lia].
  - now rewrite (pop_ready_buffers_partial bufs q H).
Qed.

(** *** Edge cases and composition *)

Lemma pop_ready_buffers_fresh (n : nat) (q : ws_outgoing_data_t) :
  Queue.pop_ready_buffers n [] q =
    (firstn n (Queue.m_awaiting_buffers q),
     Queue.mk_ws_outgoing_data (Queue.m_close_when_done q)
       (skipn n (Queue.m_awaiting_buffers q))).
Proof.
  destruct (Nat.le_gt_cases (List.length (Queue.m_awaiting_buffers q)) n)
    as [H|H].
  - rewrite (pop_ready_buffers_bulk [] q H).
    now rewrite (firstn_all2 _ H), (skipn_all2 _ H).
  - now rewrite (pop_ready_buffers_partial [] q H).
Qed.

(** X1. The ends of the range of [pop_ready_buffers] and [append]. A pop
    of no buffers from a queue that holds some changes neither the
    container nor the queue. A pop from an empty queue, whatever the
    bound, leaves the container empty, also when it held buffers. An
    append of no buffers to a queue that is not closing changes
    nothing. *)
Theorem queue_edge_cases (bufs : buffers_container_t)
    (q : ws_outgoing_data_t) :
  (Queue.m_awaiting_buffers q <> [] ->
   Queue.pop_ready_buffers 0 bufs q = (bufs, q))
  /\ (Queue.m_awaiting_buffers q = [] ->
      forall n, Queue.pop_ready_buffers n bufs q = ([], q))
  /\ (Queue.m_close_when_done q = false ->
      Queue.append [] q = Some q).
Proof.
  destruct q as [flag aw]; simpl. repeat split.
  - intros Hne. rewrite pop_ready_buffers_partial; simpl.
    + now rewrite app_nil_r.
    + destruct aw; [congruence | simpl; lia].
  - intros He n. subst aw.
    rewrite pop_ready_buffers_bulk; simpl; [reflexivity | lia].
  - intros Hf. subst flag. rewrite append_open; simpl; [|reflexivity].
    now rewrite app_nil_r.
Qed.

End QueueFacts.

(** ** Facts about the connection *)

Section ConnectionFacts.

Variable buffer_storage_t : Type.
Variable max_iov_len : nat.

Local Abbreviation ws_connection_t := (ws_connection_t buffer_storage_t).
Local Abbreviation event := (event buffer_storage_t).
Local Abbreviation world := (world buffer_storage_t).
Local Abbreviation op := (op buffer_storage_t).

Ltac unfold_actions :=
  unfold perform, on_exception, graceful_close, after_read_header,
    start_read_header, after_write, write_data_impl, append,
    init_write_if_necessary, create_bufs, obtain_bufs, close_impl,
    trigger_error_and_close, call_close_handler, log, assertion_failed,
    emit, modify, gets, bind, ret,
    OutputCtx.obtain_bufs, OutputCtx.create_bufs, OutputCtx.done,
    OutputCtx.transmitting, Queue.close_when_done, Queue.set_close_when_done,
    Queue.append in *.

Ltac split_cases :=
  repeat (cbn in *;
          match goal with
          | H : Some _ = Some _ |- _ => injection H; clear H; intros; subst
          | H : (_, _) = (_, _) |- _ => injection H; clear H; intros; subst
          | H : None = Some _ |- _ => discriminate H
          | H : Some _ = None |- _ => discriminate H
          | |- context [if ?b then _ else _] => destruct b eqn:?
          | |- context [let (_, _) := ?x in _] => destruct x eqn:?
          | H : context [if ?b then _ else _] |- _ => destruct b eqn:?
          | H : context [let (_, _) := ?x in _] |- _ => destruct x eqn:?
          end).

Lemma perform_total (o : op) (c : ws_connection_t) :
  exists c' tr, perform max_iov_len o c = Some (tt, c', tr).
Proof.
  destruct o as [| |bufs|ec written|ec len|site what];
    try destruct ec; try destruct site;
    unfold_actions; split_cases; try congruence; eauto.
Qed.

Lemma step_total (o : op) (w : world) :
  exists w', step max_iov_len o w = Some w'.
Proof.
  unfold step.
  destruct ((completes_write o =? 1)%nat && (writes_in_flight w =? 0)%nat);
    [eauto|].
  destruct (perform_total o (conn w)) as (c' & tr & H).
  rewrite H. eauto.
Qed.

Lemma run_total (ops : list op) (w : world) :
  exists w', run max_iov_len ops w = Some w'.
Proof.
  revert w; induction ops as [|o ops IH]; intros w; simpl; [eauto|].
  destruct (step_total o w) as (w1 & H). rewrite H. apply IH.
Qed.

(** *** The close handler *)

Lemma perform_close_handler (o : op) (c c' : ws_connection_t)
    (tr : list event) :
  perform max_iov_len o c = Some (tt, c', tr) ->
  count (@is_close_handler _) tr + b2n (m_close_handler c')
  = b2n (m_close_handler c).
Proof.
  destruct o as [| |bufs|ec written|ec len|site what];
    try destruct ec; try destruct site;
    unfold_actions; unfold count; intros H; split_cases;
    repeat match goal with
           | H : m_close_handler _ = _ |- _ => rewrite H
           end; reflexivity.
Qed.

Lemma count_app (p : event -> bool) (t1 t2 : list event) :
  count p (t1 ++ t2) = count p t1 + count p t2.
Proof. unfold count. now rewrite filter_app, length_app. Qed.

Lemma step_close_handler (o : op) (w w' : world) :
  step max_iov_len o w = Some w' ->
  count (@is_close_handler _) (history w') + b2n (m_close_handler (conn w'))
  = count (@is_close_handler _) (history w) + b2n (m_close_handler (conn w)).
Proof.
  unfold step.
  destruct ((completes_write o =? 1)%nat && (writes_in_flight w =? 0)%nat).
  - intros H; inversion H; reflexivity.
  - destruct (perform max_iov_len o (conn w)) as [[[[] c] tr]|] eqn:E;
      [|discriminate].
    intros H; inversion H; subst; clear H. simpl.
    rewrite count_app, <- (@perform_close_handler _ _ _ _ E). lia.
Qed.

Lemma run_close_handler (ops : list op) (w w' : world) :
  run max_iov_len ops w = Some w' ->
  count (@is_close_handler _) (history w') + b2n (m_close_handler (conn w'))
  = count (@is_close_handler _) (history w) + b2n (m_close_handler (conn w)).
Proof.
  revert w; induction ops as [|o ops IH]; intros w; simpl.
  - intros H; inversion H; reflexivity.
  - destruct (step max_iov_len o w) as [w1|] eqn:E; [|discriminate].
    intros H. rewrite (IH _ H). now apply (@step_close_handler o).
Qed.

(** With a close handler that returns and leaves the connection alone:
    a call of [call_close_handler] invokes the handler only if it is set
    and leaves it empty, so that any later call does nothing; and in
    every run of callbacks the invocations so far and the handler still
    being set add up to what the connection started with, so that there
    is at most one invocation. *)
Theorem close_handler_at_most_once :
  (forall (reason : string) (c : ws_connection_t),
     exists c' tr,
       call_close_handler reason c = Some (tt, c', tr)
       /\ count (@is_close_handler _) tr = b2n (m_close_handler c)
       /\ m_close_handler c' = false
       /\ forall reason', call_close_handler reason' c' = Some (tt, c', []))
  /\ (forall (ops : list op) (c : ws_connection_t),
      exists w',
        run max_iov_len ops (start c) = Some w'
        /\ count (@is_close_handler _) (history w') <= 1
        /\ count (@is_close_handler _) (history w')
             + b2n (m_close_handler (conn w'))
           = b2n (m_close_handler c)).
Proof.
  split.
  - intros reason c. unfold call_close_handler, gets, bind, emit, modify, ret.
    destruct (m_close_handler c) eqn:E; cbn.
    + eexists _, _. repeat split.
    + exists c, []. rewrite E. repeat split.
  - intros ops c. destruct (run_total ops (start c)) as (w' & H).
    exists w'. pose proof (@run_close_handler _ _ _ H) as Hc. simpl in Hc.
    repeat split; trivial.
    destruct (m_close_handler c); simpl in Hc; lia.
Qed.

(** *** Writes in flight *)

Lemma perform_writes (o : op) (c c' : ws_connection_t) (tr : list event) :
  perform max_iov_len o c = Some (tt, c', tr) ->
  count (@is_async_write _) tr
    <= b2n (OutputCtx.transmitting (m_resp_out_ctx c'))
  /\ (OutputCtx.transmitting (m_resp_out_ctx c) = true ->
      completes_write o = 0 ->
      count (@is_async_write _) tr = 0
      /\ OutputCtx.transmitting (m_resp_out_ctx c') = true).
Proof.
  destruct o as [| |bufs|ec written|ec len|site what];
    try destruct ec; try destruct site;
    unfold_actions; unfold count; intros H; split_cases;
    (split;
     [ lia || (destruct (OutputCtx.m_transmitting _); simpl; lia)
     | intros Hbusy Hop; try discriminate;
       try (rewrite Hbusy in *; discriminate);
       try (destruct (OutputCtx.m_transmitting (m_resp_out_ctx _));
            simpl in *; congruence);
       auto ]).
Qed.

Lemma step_writes (o : op) (w w' : world) :
  step max_iov_len o w = Some w' ->
  writes_in_flight w <= b2n (OutputCtx.transmitting (m_resp_out_ctx (conn w))) ->
  writes_in_flight w' <= b2n (OutputCtx.transmitting (m_resp_out_ctx (conn w'))).
Proof.
  unfold step.
  destruct ((completes_write o =? 1)%nat && (writes_in_flight w =? 0)%nat) eqn:G.
  - intros H; inversion H; trivial.
  - destruct (perform max_iov_len o (conn w)) as [[[[] c] tr]|] eqn:E;
      [|discriminate].
    intros H Inv; inversion H; subst; clear H. simpl.
    destruct (@perform_writes _ _ _ _ E) as [Hle Hbusy].
    destruct (OutputCtx.transmitting (m_resp_out_ctx (conn w))) eqn:T;
      simpl in Inv.
    + destruct o; simpl in *;
        try (destruct (Hbusy eq_refl eq_refl) as [H0 H1];
             rewrite H0, H1; simpl; lia).
      lia.
    + lia.
Qed.

Lemma run_writes (ops : list op) (w w' : world) :
  run max_iov_len ops w = Some w' ->
  writes_in_flight w <= b2n (OutputCtx.transmitting (m_resp_out_ctx (conn w))) ->
  writes_in_flight w' <= b2n (OutputCtx.transmitting (m_resp_out_ctx (conn w'))).
Proof.
  revert w; induction ops as [|o ops IH]; intros w; simpl.
  - intros H; inversion H; trivial.
  - destruct (step max_iov_len o w) as [w1|] eqn:E; [|discriminate].
    intros H Inv. apply (IH _ H). now apply (@step_writes _ _ _ E).
Qed.

(** C2. While a write is in flight [init_write_if_necessary] does nothing
    at all: the connection, its queue included, is left as it is and there
    is no event, so no write, no close handler and no socket close. And in
    every run of callbacks at most one write is in flight. *)
Theorem init_write_if_necessary_single_write :
  (forall c : ws_connection_t,
     OutputCtx.transmitting (m_resp_out_ctx c) = true ->
     init_write_if_necessary max_iov_len c = Some (tt, c, []))
  /\ (forall (ops : list op) (c : ws_connection_t),
      exists w',
        run max_iov_len ops (start c) = Some w'
        /\ writes_in_flight w' <= 1).
Proof.
  split.
  - intros c H. unfold init_write_if_necessary, gets, bind, ret.
    now rewrite H.
  - intros ops c. destruct (run_total ops (start c)) as (w' & H).
    exists w'. split; trivial.
    pose proof (@run_writes _ _ _ H) as Hw. simpl in Hw.
    specialize (Hw (Nat.le_0_l _)).
    destruct (OutputCtx.transmitting _); simpl in Hw; lia.
Qed.

(** *** Closing *)

Lemma pop_ready_buffers_nothing (n : nat)
    (bufs got : Queue.buffers_container_t buffer_storage_t)
    (q q' : Queue.ws_outgoing_data_t buffer_storage_t) :
  Queue.pop_ready_buffers n bufs q = (got, q') ->
  Queue.m_close_when_done q' = Queue.m_close_when_done q
  /\ (0 < n -> Queue.empty got = true -> Queue.m_awaiting_buffers q' = []).
Proof.
  intros H.
  destruct (Nat.le_gt_cases (List.length (Queue.m_awaiting_buffers q)) n)
    as [Hn|Hn].
  - rewrite (pop_ready_buffers_bulk bufs q Hn) in H.
    inversion H; subst; simpl. auto.
  - rewrite (pop_ready_buffers_partial bufs q Hn) in H.
    inversion H; subst; simpl. split; [reflexivity|].
    intros Hpos He. apply empty_true_iff in He.
    apply app_eq_nil in He. destruct He as [_ He].
    destruct (Queue.m_awaiting_buffers q) as [|b l]; [simpl in Hn; lia|].
    destruct n; [lia | discriminate].
Qed.

Lemma perform_socket_close (o : op) (c c' : ws_connection_t)
    (tr : list event) :
  0 < max_iov_len ->
  perform max_iov_len o c = Some (tt, c', tr) ->
  count (@is_socket_close _) tr = 0
  \/ (count (@is_socket_close _) tr = 1
      /\ count (@is_socket_shutdown _) tr = 1
      /\ Queue.m_awaiting_buffers (m_awaiting_buffers c') = []
      /\ Queue.close_when_done (m_awaiting_buffers c') = true
      /\ OutputCtx.transmitting (m_resp_out_ctx c') = false
      /\ is_open (m_socket c') = false).
Proof.
  intros Hpos.
  destruct o as [| |bufs|ec written|ec len|site what];
    try destruct ec; try destruct site;
    unfold_actions; unfold count; intros H; split_cases;
    try (left; reflexivity).
  all: right.
  all: match goal with
       | Hp : Queue.pop_ready_buffers _ _ _ = (?b, _),
         He : negb (Queue.empty ?b) = false |- _ =>
           apply negb_false_iff in He;
           destruct (@pop_ready_buffers_nothing _ _ _ _ _ Hp) as [Hf Ha];
           specialize (Ha Hpos He)
       end.
  all: simpl in *; repeat split; auto; try congruence.
  all: try (destruct (OutputCtx.m_transmitting (m_resp_out_ctx _));
            simpl in *; congruence).
Qed.

(** The close of a drained connection, with a close handler that returns
    and leaves the connection alone. With no write in flight, an empty
    queue and the close-when-done flag set, [init_write_if_necessary]
    invokes the close handler with the reason "user initiated" once if
    the handler is set, and not at all if it is empty; in both cases it
    then shuts the socket down in both directions and closes it, once
    each, in this order. No callback closes the socket in another way:
    with a positive bound on the buffers of a write, one that does ends
    with the queue empty, the flag set and nothing in flight. *)
Theorem init_write_if_necessary_closes_when_drained :
  (forall c : ws_connection_t,
     OutputCtx.transmitting (m_resp_out_ctx c) = false ->
     Queue.m_awaiting_buffers (m_awaiting_buffers c) = [] ->
     Queue.close_when_done (m_awaiting_buffers c) = true ->
     init_write_if_necessary max_iov_len c =
       Some (tt,
             mk_ws_connection (connection_id c) (mk_stream_socket false)
               (m_msg_handler c) false
               (OutputCtx.mk_raw_resp_output_ctx [] false)
               (Queue.mk_ws_outgoing_data true []),
             (if m_close_handler c
              then [ev_close_handler "user initiated"] else [])
             ++ [ev_log trace (connection_id c) msg_close;
                 ev_socket_shutdown_both;
                 ev_socket_close]))
  /\ (0 < max_iov_len ->
      forall (o : op) (c c' : ws_connection_t) (tr : list event),
        perform max_iov_len o c = Some (tt, c', tr) ->
        count (@is_socket_close _) tr = 0
        \/ (count (@is_socket_close _) tr = 1
            /\ count (@is_socket_shutdown _) tr = 1
            /\ Queue.m_awaiting_buffers (m_awaiting_buffers c') = []
            /\ Queue.close_when_done (m_awaiting_buffers c') = true
            /\ OutputCtx.transmitting (m_resp_out_ctx c') = false
            /\ is_open (m_socket c') = false)).
Proof.
  split.
  - intros c Hbusy Hempty Hflag.
    destruct c as [id s mh ch [staged busy] [flag aw]].
    unfold OutputCtx.transmitting, Queue.close_when_done in *.
    simpl in *. subst.
    unfold_actions. unfold Queue.pop_ready_buffers. cbn.
    destruct ch; reflexivity.
  - intros Hpos o c c' tr. now apply perform_socket_close.
Qed.

(** *** Writing *)

Lemma init_write_if_necessary_total (c : ws_connection_t) :
  exists c' tr, init_write_if_necessary max_iov_len c = Some (tt, c', tr).
Proof. unfold_actions; split_cases; eauto. Qed.

Lemma write_data_impl_ignored
    (bufs : Queue.buffers_container_t buffer_storage_t)
    (c : ws_connection_t) :
  is_open (m_socket c) = false
  \/ Queue.close_when_done (m_awaiting_buffers c) = true ->
  exists msg,
    write_data_impl max_iov_len bufs c =
      Some (tt, c, [ev_log warn (connection_id c) msg]).
Proof.
  intros H. unfold write_data_impl, log, gets, bind, emit.
  destruct (is_open (m_socket c)) eqn:Ho; cbn.
  - destruct H as [H|H]; [discriminate|]. rewrite H. cbn. eauto.
  - eauto.
Qed.

Lemma graceful_close_sets_flag (c : ws_connection_t) :
  exists c' tr,
    graceful_close max_iov_len c = Some (tt, c', tr)
    /\ Queue.close_when_done (m_awaiting_buffers c') = true.
Proof.
  destruct (perform_total (@op_close _) c) as (c' & tr & Hc).
  simpl in Hc. exists c', tr. split; [exact Hc|].
  revert Hc. unfold_actions. intros Hc. split_cases; simpl; auto.
  all: try (destruct (Queue.m_close_when_done (m_awaiting_buffers _));
            simpl in *; congruence).
  all: match goal with
       | Hp : Queue.pop_ready_buffers _ _ _ = _ |- _ =>
           destruct (@pop_ready_buffers_nothing _ _ _ _ _ Hp) as [Hf _];
           simpl in Hf; congruence
       end.
Qed.

(** C4. [write_data_impl] on a socket that is not open, or after close
    has been requested, only logs a warning: the connection, its queue
    included, is as before, no write is started and no assertion fails.
    In particular this is so after any [graceful_close]. *)
Theorem write_data_impl_after_close_is_ignored
    (bufs : Queue.buffers_container_t buffer_storage_t)
    (c : ws_connection_t) :
  (is_open (m_socket c) = false
   \/ Queue.close_when_done (m_awaiting_buffers c) = true ->
   exists msg,
     write_data_impl max_iov_len bufs c =
       Some (tt, c, [ev_log warn (connection_id c) msg]))
  /\ (exists c' tr,
        graceful_close max_iov_len c = Some (tt, c', tr)
        /\ exists msg,
             write_data_impl max_iov_len bufs c' =
               Some (tt, c', [ev_log warn (connection_id c') msg])).
Proof.
  split; [apply write_data_impl_ignored|].
  destruct (graceful_close_sets_flag c) as (c' & tr & Hc & Hf).
  exists c', tr. split; [exact Hc|].
  apply write_data_impl_ignored. now right.
Qed.

(** C5. What [after_write] does with the result of a write. Without
    error: the write is marked done and, if the socket is open,
    [init_write_if_necessary] runs on the connection; if it is not open,
    nothing more happens. With the error of a cancelled operation: nothing
    at all, no close handler and no error log. With any other error:
    [trigger_error_and_close] with the message of the error as reason,
    which logs one error. *)
Theorem after_write_cases (written : nat) (c : ws_connection_t) :
  let c_done := with_resp_out_ctx (OutputCtx.done (m_resp_out_ctx c)) c in
  OutputCtx.transmitting (m_resp_out_ctx c_done) = false
  /\ (is_open (m_socket c) = true ->
      exists c' tr,
        init_write_if_necessary max_iov_len c_done = Some (tt, c', tr)
        /\ after_write max_iov_len ec_success written c =
             Some (tt, c',
                   ev_log trace (connection_id c) msg_outgoing_data_sent :: tr))
  /\ (is_open (m_socket c) = false ->
      after_write max_iov_len ec_success written c =
        Some (tt, c_done,
              [ev_log trace (connection_id c) msg_outgoing_data_sent]))
  /\ after_write max_iov_len ec_operation_aborted written c = Some (tt, c, [])
  /\ (forall message : string,
        after_write max_iov_len (ec_failure message) written c =
          trigger_error_and_close message (msg_unable_to_write message) c
        /\ exists c' tr,
             trigger_error_and_close message (msg_unable_to_write message) c
               = Some (tt, c', tr)
             /\ count (@is_error_log _) tr = 1
             /\ tr = ev_log error (connection_id c)
                       (msg_unable_to_write message)
                     :: (if m_close_handler c
                         then [ev_close_handler message] else [])).
Proof.
  cbv zeta. repeat split.
  - intros Ho.
    destruct (init_write_if_necessary_total
                (with_resp_out_ctx (OutputCtx.done (m_resp_out_ctx c)) c))
      as (c1 & t1 & E).
    exists c1, t1. split; [exact E|].
    unfold after_write.
    remember (init_write_if_necessary max_iov_len) as iw eqn:Hiw.
    unfold log, modify, gets, bind, emit, ret. simpl.
    rewrite Ho, E. reflexivity.
  - intros Ho. unfold after_write, log, modify, gets, bind, emit, ret.
    cbn. now rewrite Ho.
  - unfold trigger_error_and_close, call_close_handler, log, modify, gets,
      bind, emit, ret. cbn.
    destruct (m_close_handler c); cbn; eexists _, _; repeat split.
Qed.

(** *** Requesting the close *)

(** C8. Setting the close-when-done flag twice gives the queue that
    setting it once gives; [graceful_close] with the flag already set
    does nothing at all, and so does any [graceful_close] after a first
    one. *)
Theorem close_request_idempotent :
  (forall q : Queue.ws_outgoing_data_t buffer_storage_t,
     Queue.set_close_when_done (Queue.set_close_when_done q)
     = Queue.set_close_when_done q)
  /\ (forall c : ws_connection_t,
        Queue.close_when_done (m_awaiting_buffers c) = true ->
        graceful_close max_iov_len c = Some (tt, c, []))
  /\ (forall c : ws_connection_t,
        exists c' tr,
          graceful_close max_iov_len c = Some (tt, c', tr)
          /\ graceful_close max_iov_len c' = Some (tt, c', [])).
Proof.
  assert (Hset : forall c : ws_connection_t,
            Queue.close_when_done (m_awaiting_buffers c) = true ->
            graceful_close max_iov_len c = Some (tt, c, [])).
  { intros c H. unfold graceful_close, gets, bind, ret. now rewrite H. }
  repeat split; trivial.
  intros c.
  destruct (graceful_close_sets_flag c) as (c' & tr & Hc & Hf).
  exists c', tr. split; [exact Hc|]. now apply Hset.
Qed.

(** C9. The assertion of [append] does not fail: [write_data_impl], the
    only caller of [append], returns for every connection and every
    container, and so does every run of callbacks from every state of a
    connection. *)
Theorem append_assertion_never_fails :
  (forall (bufs : Queue.buffers_container_t buffer_storage_t)
          (c : ws_connection_t),
     exists c' tr, write_data_impl max_iov_len bufs c = Some (tt, c', tr))
  /\ (forall (bufs : Queue.buffers_container_t buffer_storage_t)
             (c : ws_connection_t),
        Queue.close_when_done (m_awaiting_buffers c) = true ->
        append bufs c = None)
  /\ (forall (ops : list op) (w : world),
        exists w', run max_iov_len ops w = Some w').
Proof.
  repeat split.
  - intros bufs c. apply (perform_total (op_write_data bufs) c).
  - intros bufs c H. unfold append, gets, bind, Queue.append.
    unfold Queue.close_when_done in H. now rewrite H.
  - intros ops w. apply run_total.
Qed.

(** *** The order and the size of the writes *)

Lemma written_app (t1 t2 : list event) :
  written (t1 ++ t2) = written t1 ++ written t2.
Proof. unfold written. apply flat_map_app. Qed.

Lemma firstn_nil_all (n : nat) (l : Queue.buffers_container_t buffer_storage_t) :
  firstn n l = [] -> skipn n l = l.
Proof.
  intros H. rewrite <- (firstn_skipn n l) at 2. now rewrite H.
Qed.

Lemma firstn_size_ok (n : nat) (l : Queue.buffers_container_t buffer_storage_t) :
  Queue.empty (firstn n l) = false ->
  1 <= List.length (firstn n l) /\ List.length (firstn n l) <= n.
Proof.
  intros H. split.
  - destruct (firstn n l); [discriminate | simpl; lia].
  - rewrite length_firstn. lia.
Qed.

Ltac unfold_callers :=
  unfold perform, on_exception, graceful_close, after_read_header,
    start_read_header, after_write, write_data_impl, append,
    init_write_if_necessary, create_bufs, obtain_bufs, close_impl,
    trigger_error_and_close, call_close_handler, log, assertion_failed,
    emit, modify, gets, bind, ret,
    OutputCtx.obtain_bufs, OutputCtx.create_bufs, OutputCtx.done,
    OutputCtx.transmitting, Queue.close_when_done, Queue.set_close_when_done
    in *.

Ltac evaluate_in H :=
  unfold_callers;
  cbn -[Queue.pop_ready_buffers Queue.append firstn skipn] in H;
  rewrite ?append_open in H by reflexivity;
  cbn -[Queue.pop_ready_buffers firstn skipn] in H;
  rewrite ?pop_ready_buffers_fresh in H;
  cbn -[firstn skipn] in H;
  repeat match type of H with
         | context [if ?b then _ else _] => destruct b eqn:?
         end;
  cbn -[firstn skipn] in H;
  try discriminate H;
  injection H; clear H; intros; subst.

Lemma perform_flush (o : op) (c c' : ws_connection_t) (tr : list event) :
  staging_clear c ->
  perform max_iov_len o c = Some (tt, c', tr) ->
  staging_clear c'
  /\ written tr ++ Queue.m_awaiting_buffers (m_awaiting_buffers c')
     = Queue.m_awaiting_buffers (m_awaiting_buffers c) ++ accepted o c
  /\ Forall (write_size_ok max_iov_len) tr
  /\ Queue.close_when_done (m_awaiting_buffers c')
     = Queue.close_when_done (m_awaiting_buffers c) || is_op_close o
  /\ (Queue.close_when_done (m_awaiting_buffers c') = false ->
      is_open (m_socket c') = is_open (m_socket c)).
Proof.
  unfold staging_clear, accepted. intros J H.
  destruct c as [id [open] mh ch [staged busy] [flag aw]].
  simpl in J.
  destruct busy; [clear J | specialize (J eq_refl); subst staged].
  all: destruct o as [| |bufs|ec written|ec len|site what];
    try destruct ec; try destruct site;
    destruct open, flag, ch; evaluate_in H.
  all: cbn -[firstn skipn].
  all: repeat match goal with
       | Hb : negb _ = true |- _ => apply negb_true_iff in Hb
       | Hb : negb _ = false |- _ =>
           apply negb_false_iff in Hb;
           pose proof (proj1 (empty_true_iff _) Hb)
       end.
  all: repeat split; intros; try discriminate; try reflexivity;
    rewrite ?app_nil_r; try reflexivity;
    try solve [apply firstn_skipn | now apply firstn_nil_all | assumption
              | symmetry; now apply firstn_nil_all].
  all: repeat apply Forall_cons; try apply Forall_nil; simpl; auto.
  all: try (apply firstn_size_ok; assumption).
Qed.

Lemma step_flush (o : op) (w w' : world) :
  staging_clear (conn w) ->
  step max_iov_len o w = Some w' ->
  staging_clear (conn w')
  /\ written (history w')
       ++ Queue.m_awaiting_buffers (m_awaiting_buffers (conn w'))
     = written (history w)
       ++ Queue.m_awaiting_buffers (m_awaiting_buffers (conn w))
       ++ accepted o (conn w)
  /\ (Forall (write_size_ok max_iov_len) (history w) ->
      Forall (write_size_ok max_iov_len) (history w'))
  /\ Queue.close_when_done (m_awaiting_buffers (conn w'))
     = Queue.close_when_done (m_awaiting_buffers (conn w)) || is_op_close o
  /\ (Queue.close_when_done (m_awaiting_buffers (conn w')) = false ->
      is_open (m_socket (conn w')) = is_open (m_socket (conn w))).
Proof.
  intros J. unfold step.
  destruct ((completes_write o =? 1)%nat && (writes_in_flight w =? 0)%nat)
    eqn:G.
  - intros H; injection H as <-.
    assert (Ho : accepted o (conn w) = [] /\ is_op_close o = false)
      by (destruct o; simpl in *; try discriminate; auto).
    destruct Ho as [Ha Hc]. rewrite Ha, Hc, app_nil_r, orb_false_r. auto.
  - destruct (perform max_iov_len o (conn w)) as [[[[] c] tr]|] eqn:E;
      [|discriminate].
    intros H; injection H as <-. simpl.
    destruct (@perform_flush _ _ _ _ J E) as (J' & Hw & Hs & Hf & Ho).
    repeat split; trivial.
    + now rewrite written_app, <- app_assoc, Hw.
    + intros Hh. apply Forall_app. now split.
Qed.

Lemma run_flush_open (ops : list op) (w : world) :
  staging_clear (conn w) ->
  is_open (m_socket (conn w)) = true ->
  Queue.close_when_done (m_awaiting_buffers (conn w)) = false ->
  forallb (fun o => negb (is_op_close o)) ops = true ->
  exists w',
    run max_iov_len ops w = Some w'
    /\ written (history w')
         ++ Queue.m_awaiting_buffers (m_awaiting_buffers (conn w'))
       = written (history w)
         ++ Queue.m_awaiting_buffers (m_awaiting_buffers (conn w))
         ++ submitted_data ops
    /\ is_open (m_socket (conn w')) = true
    /\ Queue.close_when_done (m_awaiting_buffers (conn w')) = false.
Proof.
  revert w; induction ops as [|o ops IH]; intros w J Ho Hf Hops; simpl.
  - exists w. now rewrite app_nil_r.
  - simpl in Hops. apply andb_true_iff in Hops. destruct Hops as [Hc Hops].
    apply negb_true_iff in Hc.
    destruct (step_total o w) as (w1 & E). rewrite E.
    destruct (@step_flush o w w1 J E) as (J1 & Hw & _ & Hf1 & Ho1).
    rewrite Hf, Hc in Hf1. simpl in Hf1. specialize (Ho1 Hf1).
    rewrite Ho in Ho1.
    destruct (IH w1 J1 Ho1 Hf1 Hops) as (w' & Hrun & Hw' & Ho' & Hf').
    exists w'. repeat split; trivial.
    rewrite Hw', app_assoc, Hw. rewrite <- !app_assoc. do 2 f_equal.
    unfold accepted. destruct o; simpl; trivial.
    unfold Queue.close_when_done in *. now rewrite Ho, Hf.
Qed.

Lemma run_write_sizes (ops : list op) (w : world) :
  staging_clear (conn w) ->
  Forall (write_size_ok max_iov_len) (history w) ->
  exists w',
    run max_iov_len ops w = Some w'
    /\ Forall (write_size_ok max_iov_len) (history w').
Proof.
  revert w; induction ops as [|o ops IH]; intros w J Hh; simpl.
  - eauto.
  - destruct (step_total o w) as (w1 & E). rewrite E.
    destruct (@step_flush o w w1 J E) as (J1 & _ & Hs & _).
    apply (IH w1 J1 (Hs Hh)).
Qed.

(** X5. Writes go out in the order of submission. On an open connection
    on which close has not been requested, after any run of callbacks
    without a close, the buffers written so far followed by the buffers
    still queued are the buffers the queue held at the start followed by
    all buffers passed to [write_data], in the order of the calls. *)
Theorem writes_in_submission_order (ops : list op) (c : ws_connection_t) :
  staging_clear c ->
  is_open (m_socket c) = true ->
  Queue.close_when_done (m_awaiting_buffers c) = false ->
  forallb (fun o => negb (is_op_close o)) ops = true ->
  exists w',
    run max_iov_len ops (start c) = Some w'
    /\ written (history w')
         ++ Queue.m_awaiting_buffers (m_awaiting_buffers (conn w'))
       = Queue.m_awaiting_buffers (m_awaiting_buffers c)
         ++ submitted_data ops.
Proof.
  intros J Ho Hf Hops.
  destruct (@run_flush_open ops (start c) J Ho Hf Hops)
    as (w' & Hrun & Hw & _).
  exists w'. split; trivial.
Qed.

(** X6. Every write that a connection issues carries at least one buffer
    and at most [max_iov_len] buffers, in every run of callbacks, provided
    the staging area of the output context is empty whenever no write is
    under way, as it is in a new connection. *)
Theorem writes_within_max_iov_len (ops : list op) (c : ws_connection_t) :
  staging_clear c ->
  exists w',
    run max_iov_len ops (start c) = Some w'
    /\ Forall (write_size_ok max_iov_len) (history w').
Proof.
  intros J. apply (@run_write_sizes ops (start c) J). constructor.
Qed.

(** *** Flushing before the close *)

Ltac evaluate_goal :=
  unfold_callers;
  cbn -[Queue.pop_ready_buffers Queue.append firstn skipn];
  rewrite ?append_open by reflexivity;
  cbn -[Queue.pop_ready_buffers firstn skipn];
  rewrite ?pop_ready_buffers_fresh;
  cbn -[firstn skipn].

Lemma firstn_not_empty (n : nat) (l : Queue.buffers_container_t buffer_storage_t) :
  0 < n -> l <> [] -> Queue.empty (firstn n l) = false.
Proof.
  intros Hn Hl. destruct n; [lia|]. destruct l; [congruence | reflexivity].
Qed.








Lemma count_write_events (p : event -> bool) (c : ws_connection_t) :
  (forall bufs, p (ev_async_write bufs) = false) ->
  (forall l i m, p (ev_log l i m) = false) ->
  count p (write_events max_iov_len c) = 0.
Proof.
  intros Hw Hl. unfold count, write_events. simpl. now rewrite Hw, Hl.
Qed.





(** *** After a failed write *)

Lemma perform_while_transmitting (o : op) (c c' : ws_connection_t)
    (tr : list event) :
  OutputCtx.transmitting (m_resp_out_ctx c) = true ->
  (forall n, o <> op_write_completed ec_success n) ->
  perform max_iov_len o c = Some (tt, c', tr) ->
  OutputCtx.transmitting (m_resp_out_ctx c') = true
  /\ is_open (m_socket c') = is_open (m_socket c)
  /\ count (@is_async_write _) tr = 0
  /\ count (@is_socket_close _) tr = 0.
Proof.
  intros Hb Hns H.
  destruct c as [id [open] mh ch [staged busy] [flag aw]].
  unfold OutputCtx.transmitting in Hb. simpl in Hb. subst busy.
  destruct o as [| |bufs|ec written|ec len|site what];
    try destruct ec; try destruct site;
    try (exfalso; apply (Hns written); reflexivity);
    destruct open, flag, ch; evaluate_in H; repeat split.
Qed.

Lemma step_while_stuck (o : op) (w w' : world) :
  OutputCtx.transmitting (m_resp_out_ctx (conn w)) = true ->
  writes_in_flight w = 0 ->
  step max_iov_len o w = Some w' ->
  OutputCtx.transmitting (m_resp_out_ctx (conn w')) = true
  /\ writes_in_flight w' = 0
  /\ is_open (m_socket (conn w')) = is_open (m_socket (conn w))
  /\ count (@is_async_write _) (history w')
     = count (@is_async_write _) (history w)
  /\ count (@is_socket_close _) (history w')
     = count (@is_socket_close _) (history w).
Proof.
  intros Hb Hfl. unfold step. rewrite Hfl.
  destruct (completes_write o =? 1)%nat eqn:G; simpl.
  - intros H; injection H as <-. auto.
  - destruct (perform max_iov_len o (conn w)) as [[[[] c] tr]|] eqn:E;
      [|discriminate].
    intros H; injection H as <-. simpl.
    assert (Hns : forall n, o <> op_write_completed ec_success n)
      by (intros n ->; discriminate).
    destruct (@perform_while_transmitting o _ _ _ Hb Hns E)
      as (Hb' & Ho & Ha & Hc).
    rewrite !count_app, Ha, Hc.
    repeat split; trivial; lia.
Qed.

Lemma run_while_stuck (ops : list op) (w : world) :
  OutputCtx.transmitting (m_resp_out_ctx (conn w)) = true ->
  writes_in_flight w = 0 ->
  exists w',
    run max_iov_len ops w = Some w'
    /\ OutputCtx.transmitting (m_resp_out_ctx (conn w')) = true
    /\ is_open (m_socket (conn w')) = is_open (m_socket (conn w))
    /\ count (@is_async_write _) (history w')
       = count (@is_async_write _) (history w)
    /\ count (@is_socket_close _) (history w')
       = count (@is_socket_close _) (history w).
Proof.
  revert w; induction ops as [|o ops IH]; intros w Hb Hfl; simpl.
  - exists w. repeat split; trivial.
  - destruct (step_total o w) as (w1 & E). rewrite E.
    destruct (@step_while_stuck o w w1 Hb Hfl E)
      as (Hb1 & Hfl1 & Ho1 & Ha1 & Hc1).
    destruct (IH w1 Hb1 Hfl1) as (w' & Hrun & Hb' & Ho' & Ha' & Hc').
    exists w'. repeat split; trivial; congruence.
Qed.

(** X9. A write that fails stalls the connection. When the write in
    flight completes with an error, cancellation included, the output
    context is never told that the write is over; whatever callbacks
    follow, the connection issues no further write and does not close
    its socket, so a later [close] is not carried out either. *)
Theorem failed_write_stalls_connection (ec : error_code) (n : nat)
    (ops : list op) (w : world) :
  ec <> ec_success ->
  OutputCtx.transmitting (m_resp_out_ctx (conn w)) = true ->
  writes_in_flight w = 1 ->
  exists w',
    run max_iov_len (op_write_completed ec n :: ops) w = Some w'
    /\ OutputCtx.transmitting (m_resp_out_ctx (conn w')) = true
    /\ is_open (m_socket (conn w')) = is_open (m_socket (conn w))
    /\ count (@is_async_write _) (history w')
       = count (@is_async_write _) (history w)
    /\ count (@is_socket_close _) (history w')
       = count (@is_socket_close _) (history w).
Proof.
  intros Hec Hb Hfl.
  destruct (step_total (op_write_completed ec n) w) as (w1 & E).
  cbn [run]. rewrite E.
  revert E. unfold step. rewrite Hfl.
  cbn [completes_write Nat.eqb andb].
  destruct (perform max_iov_len (op_write_completed ec n) (conn w))
    as [[[[] c] tr]|] eqn:P; [|discriminate].
  intros E; injection E as <-.
  assert (Hns : forall m, op_write_completed (buffer_storage_t := buffer_storage_t)
                            ec n <> op_write_completed ec_success m)
    by (intros m Hm; injection Hm as Hm _; contradiction).
  destruct (@perform_while_transmitting _ _ _ _ Hb Hns P)
    as (Hb1 & Ho1 & Ha1 & Hc1).
  destruct (@run_while_stuck ops
              (mk_world c (1 - 1 + count (@is_async_write _) tr)
                 (history w ++ tr)))
    as (w' & Hrun & Hb' & Ho' & Ha' & Hc').
  { exact Hb1. }
  { simpl. rewrite Ha1. reflexivity. }
  exists w'. simpl in *. rewrite !count_app, Ha1 in Ha'.
  rewrite !count_app, Hc1 in Hc'.
  repeat split; trivial; try congruence; lia.
Qed.

(** *** After the close *)

Lemma perform_closing (o : op) (c c' : ws_connection_t) (tr : list event) :
  perform max_iov_len o c = Some (tt, c', tr) ->
  (count (@is_socket_close _) tr = 0
   /\ count (@is_socket_shutdown _) tr = 0)
  \/ (count (@is_socket_close _) tr = 1
      /\ count (@is_socket_shutdown _) tr = 1
      /\ count (@is_async_write _) tr = 0
      /\ is_open (m_socket c') = false
      /\ Queue.close_when_done (m_awaiting_buffers c') = true
      /\ OutputCtx.transmitting (m_resp_out_ctx c') = false).
Proof.
  destruct o as [| |bufs|ec written|ec len|site what];
    try destruct ec; try destruct site;
    unfold_actions; unfold count; intros H; split_cases;
    try (left; split; reflexivity).
  all: right; simpl; repeat split; auto.
  all: try (destruct (OutputCtx.m_transmitting (m_resp_out_ctx _));
            simpl in *; congruence).
  all: match goal with
       | Hp : Queue.pop_ready_buffers _ _ _ = _ |- _ =>
           destruct (@pop_ready_buffers_nothing _ _ _ _ _ Hp) as [Hf _];
           simpl in Hf; congruence
       end.
Qed.

Lemma perform_after_close (o : op) (c c' : ws_connection_t)
    (tr : list event) :
  is_open (m_socket c) = false ->
  Queue.close_when_done (m_awaiting_buffers c) = true ->
  completes_write o = 0 ->
  perform max_iov_len o c = Some (tt, c', tr) ->
  is_open (m_socket c') = false
  /\ m_awaiting_buffers c' = m_awaiting_buffers c
  /\ m_resp_out_ctx c' = m_resp_out_ctx c
  /\ count (@is_socket_close _) tr = 0
  /\ count (@is_socket_shutdown _) tr = 0
  /\ count (@is_async_write _) tr = 0.
Proof.
  intros Ho Hf Hk H.
  destruct c as [id [open] mh ch [staged busy] [flag aw]].
  unfold Queue.close_when_done in Hf. simpl in Ho, Hf. subst open flag.
  destruct o as [| |bufs|ec written|ec len|site what];
    try discriminate Hk; try destruct site;
    destruct busy, ch; evaluate_in H; repeat split.
Qed.

Lemma step_closed_once (o : op) (w w' : world) :
  writes_in_flight w
    <= b2n (OutputCtx.transmitting (m_resp_out_ctx (conn w))) ->
  closed_once w ->
  step max_iov_len o w = Some w' ->
  closed_once w'.
Proof.
  intros Inv K E. pose proof (@step_writes o w w' E Inv) as Inv'.
  revert E Inv'. unfold step, closed_once in *.
  destruct ((completes_write o =? 1)%nat && (writes_in_flight w =? 0)%nat)
    eqn:G.
  - intros H _; injection H as <-. exact K.
  - destruct (perform max_iov_len o (conn w)) as [[[[] c] tr]|] eqn:P;
      [|discriminate].
    intros H Inv'; injection H as <-. simpl in *. rewrite !count_app.
    destruct K as [[K0 K1]|(K1 & K2 & Ko & Kf & Kfl)].
    + destruct (@perform_closing _ _ _ _ P)
        as [[H0 H1]|(H1 & H2 & Ha & Ho & Hf & Hb)].
      * left. lia.
      * right. rewrite Hb in Inv'. simpl in Inv'.
        repeat split; trivial; lia.
    + assert (Hk : completes_write o = 0).
      { rewrite Kfl in G. simpl in G. rewrite andb_true_r in G.
        destruct o; simpl in *; try reflexivity; discriminate. }
      destruct (@perform_after_close _ _ _ _ Ko Kf Hk P)
        as (Ho & Hq & Hc & H0 & H1 & Ha).
      right. rewrite Hq, Hk, H0, H1, Ha. repeat split; trivial; lia.
Qed.

Lemma run_closed_once (ops : list op) (w : world) :
  writes_in_flight w
    <= b2n (OutputCtx.transmitting (m_resp_out_ctx (conn w))) ->
  closed_once w ->
  exists w', run max_iov_len ops w = Some w' /\ closed_once w'.
Proof.
  revert w; induction ops as [|o ops IH]; intros w Inv K; simpl.
  - eauto.
  - destruct (step_total o w) as (w1 & E). rewrite E.
    apply IH.
    + apply (@step_writes o w w1 E Inv).
    + apply (@step_closed_once o w w1 Inv K E).
Qed.

Lemma step_after_close (o : op) (w w' : world) :
  is_open (m_socket (conn w)) = false ->
  Queue.close_when_done (m_awaiting_buffers (conn w)) = true ->
  writes_in_flight w = 0 ->
  step max_iov_len o w = Some w' ->
  is_open (m_socket (conn w')) = false
  /\ m_awaiting_buffers (conn w') = m_awaiting_buffers (conn w)
  /\ m_resp_out_ctx (conn w') = m_resp_out_ctx (conn w)
  /\ writes_in_flight w' = 0
  /\ count (@is_socket_close _) (history w')
     = count (@is_socket_close _) (history w)
  /\ count (@is_async_write _) (history w')
     = count (@is_async_write _) (history w).
Proof.
  intros Ho Hf Hfl. unfold step. rewrite Hfl.
  destruct (completes_write o =? 1)%nat eqn:G; simpl.
  - intros H; injection H as <-. repeat split; trivial.
  - destruct (perform max_iov_len o (conn w)) as [[[[] c] tr]|] eqn:P;
      [|discriminate].
    intros H; injection H as <-. simpl.
    assert (Hk : completes_write o = 0)
      by (destruct o; simpl in *; try reflexivity; discriminate).
    destruct (@perform_after_close _ _ _ _ Ho Hf Hk P)
      as (Ho' & Hq & Hc & H0 & H1 & Ha).
    rewrite !count_app, H0, Ha. repeat split; trivial; lia.
Qed.

Lemma run_after_close (ops : list op) (w : world) :
  is_open (m_socket (conn w)) = false ->
  Queue.close_when_done (m_awaiting_buffers (conn w)) = true ->
  writes_in_flight w = 0 ->
  exists w',
    run max_iov_len ops w = Some w'
    /\ is_open (m_socket (conn w')) = false
    /\ m_awaiting_buffers (conn w') = m_awaiting_buffers (conn w)
    /\ m_resp_out_ctx (conn w') = m_resp_out_ctx (conn w)
    /\ count (@is_socket_close _) (history w')
       = count (@is_socket_close _) (history w)
    /\ count (@is_async_write _) (history w')
       = count (@is_async_write _) (history w).
Proof.
  revert w; induction ops as [|o ops IH]; intros w Ho Hf Hfl; simpl.
  - exists w. repeat split; trivial.
  - destruct (step_total o w) as (w1 & E). rewrite E.
    destruct (@step_after_close o w w1 Ho Hf Hfl E)
      as (Ho1 & Hq1 & Hc1 & Hfl1 & Hs1 & Ha1).
    destruct (IH w1 Ho1) as (w' & Hrun & Ho' & Hq' & Hc' & Hs' & Ha');
      [now rewrite Hq1 | exact Hfl1 |].
    exists w'. repeat split; trivial; congruence.
Qed.

(** X10. A connection closes its socket at most once. In every run of
    callbacks, from any state of the connection, there is at most one
    socket close, and as many shutdowns as closes. *)
Theorem socket_closed_at_most_once (ops : list op) (c : ws_connection_t) :
  exists w',
    run max_iov_len ops (start c) = Some w'
    /\ count (@is_socket_close _) (history w') <= 1
    /\ count (@is_socket_shutdown _) (history w')
       = count (@is_socket_close _) (history w').
Proof.
  destruct (@run_closed_once ops (start c)) as (w' & Hrun & K).
  - simpl. lia.
  - left. split; reflexivity.
  - exists w'. split; [exact Hrun|].
    destruct K as [[K0 K1]|(K1 & K2 & _)]; lia.
Qed.

(** X11. After the close the connection is at rest. Once a run has
    closed the socket, whatever callbacks follow, the connection issues
    no write, queues no buffer, leaves its output context as it is and
    does not close the socket again. *)
Theorem nothing_after_close (ops1 ops2 : list op) (c : ws_connection_t)
    (w1 : world) :
  run max_iov_len ops1 (start c) = Some w1 ->
  count (@is_socket_close _) (history w1) = 1 ->
  exists w2,
    run max_iov_len ops2 w1 = Some w2
    /\ is_open (m_socket (conn w2)) = false
    /\ m_awaiting_buffers (conn w2) = m_awaiting_buffers (conn w1)
    /\ m_resp_out_ctx (conn w2) = m_resp_out_ctx (conn w1)
    /\ count (@is_async_write _) (history w2)
       = count (@is_async_write _) (history w1)
    /\ count (@is_socket_close _) (history w2) = 1.
Proof.
  intros Hrun Hclosed.
  destruct (@run_closed_once ops1 (start c)) as (w & Hrun' & K).
  - simpl. lia.
  - left. split; reflexivity.
  - rewrite Hrun in Hrun'. injection Hrun' as <-.
    destruct K as [[K0 _]|(_ & _ & Ko & Kf & Kfl)]; [lia|].
    destruct (@run_after_close ops2 w1 Ko Kf Kfl)
      as (w2 & Hrun2 & Ho & Hq & Hc & Hs & Ha).
    exists w2. repeat split; trivial. congruence.
Qed.

(** *** A connection as constructed *)

(** X12. The close handler given to the constructor is never called. The
    constructor does not store it, the handler of a new connection is
    empty, and so no run of callbacks on a new connection notifies
    anybody: not of an error, not of the close. *)
Theorem constructed_connection_never_notifies (conn_id : N)
    (socket : stream_socket_t) (msg_handler : message_handler_t)
    (close_handler : close_handler_t) (ops : list op) :
  exists w',
    run max_iov_len ops
      (start (fst (new_connection buffer_storage_t conn_id socket
                     msg_handler close_handler)))
    = Some w'
    /\ count (@is_close_handler _) (history w') = 0
    /\ m_close_handler (conn w') = false.
Proof.
  destruct (run_total ops
              (start (fst (new_connection buffer_storage_t conn_id socket
                             msg_handler close_handler))))
    as (w' & Hrun).
  exists w'. split; [exact Hrun|].
  pose proof (@run_close_handler _ _ _ Hrun) as H. simpl in H.
  destruct (m_close_handler (conn w')); simpl in H; split; trivial; lia.
Qed.

(** *** Accepted writes *)

(** X13. What [write_data_impl] does with buffers it accepts, on an open
    connection on which close has not been requested. While a write is
    in flight the buffers are queued behind the waiting ones and nothing
    else happens. On an idle connection the first [max_iov_len] buffers
    of the queue, the new ones included, are written at once and the
    rest stays queued; with nothing to send nothing happens. *)
Theorem write_data_impl_accepts
    (bufs : Queue.buffers_container_t buffer_storage_t)
    (c : ws_connection_t) :
  is_open (m_socket c) = true ->
  Queue.close_when_done (m_awaiting_buffers c) = false ->
  let queued :=
    with_awaiting_buffers
      (Queue.mk_ws_outgoing_data false
         (Queue.m_awaiting_buffers (m_awaiting_buffers c) ++ bufs)) c in
  (OutputCtx.transmitting (m_resp_out_ctx c) = true ->
   write_data_impl max_iov_len bufs c = Some (tt, queued, []))
  /\ (OutputCtx.transmitting (m_resp_out_ctx c) = false ->
      OutputCtx.m_bufs (m_resp_out_ctx c) = [] ->
      0 < max_iov_len ->
      Queue.m_awaiting_buffers (m_awaiting_buffers c) ++ bufs <> [] ->
      write_data_impl max_iov_len bufs c =
        Some (tt, writing max_iov_len queued,
              write_events max_iov_len queued))
  /\ (OutputCtx.transmitting (m_resp_out_ctx c) = false ->
      Queue.m_awaiting_buffers (m_awaiting_buffers c) ++ bufs = [] ->
      exists c',
        write_data_impl max_iov_len bufs c = Some (tt, c', [])
        /\ m_awaiting_buffers c' = Queue.mk_ws_outgoing_data false []
        /\ OutputCtx.transmitting (m_resp_out_ctx c') = false).
Proof.
  intros Ho Hf.
  destruct c as [id [open] mh ch [staged busy] [flag aw]].
  unfold Queue.close_when_done, OutputCtx.transmitting in *.
  simpl in *. subst open flag. repeat split.
  - intros Hb. subst busy. evaluate_goal. reflexivity.
  - intros Hb Hs Hpos Hne. subst busy staged.
    unfold writing, write_events. evaluate_goal.
    now rewrite (firstn_not_empty Hpos Hne).
  - intros Hb He. subst busy. apply app_eq_nil in He.
    destruct He as [-> ->]. eexists.
    unfold_callers. unfold Queue.pop_ready_buffers, Queue.append. cbn.
    repeat split.
Qed.

End ConnectionFacts.

(** ** Facts about the close handler as user code *)

Section HandlerFacts.

Variable buffer_storage_t : Type.
Variable max_iov_len : nat.

Local Abbreviation ws_connection_t := (ws_connection_t buffer_storage_t).

Ltac unfold_tasks :=
  unfold Reentrant.callback, Reentrant.on_exception, Reentrant.write_completed,
    Reentrant.write_data, Reentrant.init_read, Reentrant.close,
    Reentrant.graceful_close, Reentrant.after_write,
    Reentrant.write_data_impl, Reentrant.init_write_if_necessary,
    Reentrant.trigger_error_and_close, Reentrant.try_catch,
    Reentrant.and_then, Reentrant.pure, Reentrant.throw, Reentrant.lift,
    Reentrant.after_events,
    perform, on_exception, graceful_close, after_read_header,
    start_read_header, after_write, write_data_impl, append,
    init_write_if_necessary, create_bufs, obtain_bufs, close_impl,
    trigger_error_and_close, call_close_handler, log, assertion_failed,
    emit, modify, gets, bind, ret,
    OutputCtx.obtain_bufs, OutputCtx.create_bufs, OutputCtx.done,
    OutputCtx.transmitting, Queue.close_when_done, Queue.set_close_when_done,
    Queue.append, Queue.pop_ready_buffers.

(** For the handler that only returns, [call_close_handler] is the
    function given first. *)
Lemma call_close_handler_quiet (fuel : nat) (reason : string)
    (c : ws_connection_t) :
  Reentrant.call_close_handler max_iov_len (Reentrant.quiet buffer_storage_t)
    (S fuel) reason c
  = Reentrant.lift (call_close_handler reason) c.
Proof.
  destruct c as [id s mh ch ctx q].
  destruct ch; reflexivity.
Qed.

(** And so is every callback. *)
Lemma callback_quiet (fuel : nat) (o : op buffer_storage_t)
    (c : ws_connection_t) :
  Reentrant.callback max_iov_len
    (Reentrant.call_close_handler max_iov_len
       (Reentrant.quiet buffer_storage_t) (S fuel))
    o c
  = Reentrant.lift (perform max_iov_len o) c.
Proof.
  destruct c as [id [open] mh ch [staged busy] [flag aw]].
  destruct o as [| |bufs|ec written|ec len|site what];
    try destruct ec; try destruct site;
    destruct open, busy, flag, ch; unfold_tasks; cbn;
    repeat match goal with
           | |- context [if ?b then _ else _] => destruct b; cbn
           end;
    reflexivity.
Qed.

(** C3. Scenario C on a connection as the constructor builds it. The
    constructor is given a close handler and does not store it. With the
    close requested, no write in flight and the queue empty,
    [init_write_if_necessary] shuts the socket down and closes it, and
    the close handler is not called: there is no notification with the
    reason "user initiated", whatever the handler given would do. *)
Theorem constructed_connection_close_not_notified (conn_id : N)
    (msg_handler : message_handler_t) (close_handler : close_handler_t) :
  let c0 :=
    fst (new_connection buffer_storage_t conn_id (mk_stream_socket true)
           msg_handler close_handler) in
  let c :=
    with_awaiting_buffers
      (Queue.set_close_when_done (m_awaiting_buffers c0)) c0 in
  let tr : list (event buffer_storage_t) :=
    [ev_log trace conn_id msg_close;
     ev_socket_shutdown_both;
     ev_socket_close] in
  OutputCtx.transmitting (m_resp_out_ctx c) = false
  /\ Queue.m_awaiting_buffers (m_awaiting_buffers c) = []
  /\ Queue.close_when_done (m_awaiting_buffers c) = true
  /\ init_write_if_necessary max_iov_len c = Some (tt, closed c, tr)
  /\ count (@is_close_handler _) tr = 0
  /\ (forall (code : Reentrant.handler_code buffer_storage_t) (fuel : nat),
        Reentrant.init_write_if_necessary max_iov_len
          (Reentrant.call_close_handler max_iov_len code fuel) c
        = Reentrant.returned tt (closed c) tr).
Proof.
  cbv zeta. repeat split.
  intros code fuel. destruct fuel; reflexivity.
Qed.

End HandlerFacts.


(** ** Facts about reading a payload *)

Lemma delivered_cons (n : nat) (ec : error_code) (len : nat)
    (rest : list (error_code * nat)) :
  delivered (S n) ((ec, len) :: rest) = len + delivered n rest.
Proof. reflexivity. Qed.

(** X2. The reads of a payload tile its storage. In every run of
    [start_read_payload] that does not fail an assert, each read starts
    where the bytes delivered before it end and asks for all that is
    still missing; and when the payload is reported complete, the bytes
    delivered add up to exactly the length asked for at the start. *)
Theorem read_payload_contiguous (completions : list (error_code * nat))
    (r : payload_read) (reads : list payload_read) (complete : bool) :
  read_payload completions r = Some (reads, complete) ->
  (forall i ri,
     nth_error reads i = Some ri ->
     payload_data ri = payload_data r + delivered i completions
     /\ payload_data ri + length_remaining ri
        = payload_data r + length_remaining r)
  /\ (complete = true ->
      delivered (List.length reads) completions = length_remaining r).
Proof.
  revert r reads complete.
  induction completions as [|[ec len] rest IH]; intros r reads complete H.
  - simpl in H. injection H as <- <-. split; [|discriminate].
    intros [|i] ri Hi; simpl in Hi; [|destruct i; discriminate].
    injection Hi as <-. unfold delivered. simpl. lia.
  - simpl in H. unfold after_read_payload in H.
    destruct (len <? length_remaining r)%nat eqn:Hlt.
    + apply Nat.ltb_lt in Hlt.
      destruct (read_payload rest _) as [[reads' complete']|] eqn:E;
        [|discriminate].
      injection H as <- <-.
      destruct (IH _ _ _ E) as [Hreads Hdone]. simpl in *. split.
      * intros [|i] ri Hi; simpl in Hi.
        -- injection Hi as <-. unfold delivered. simpl. lia.
        -- destruct (Hreads i ri Hi) as [Hp He].
           rewrite delivered_cons. lia.
      * intros Hc. rewrite delivered_cons, (Hdone Hc). lia.
    + destruct (len =? length_remaining r)%nat eqn:Heq; [|discriminate].
      apply Nat.eqb_eq in Heq. injection H as <- <-. split.
      * intros [|i] ri Hi; simpl in Hi; [|destruct i; discriminate].
        injection Hi as <-. unfold delivered. simpl. lia.
      * intros _. unfold delivered. simpl. lia.
Qed.

(** X3. The assert of the completion handler holds as long as the socket
    delivers no more than was asked for: if the lengths of the
    completions add up to at most the length of the payload, the run
    returns; a single completion longer than its read fails it. *)
Theorem read_payload_assert :
  (forall (completions : list (error_code * nat)) (r : payload_read),
     list_sum (map snd completions) <= length_remaining r ->
     exists reads complete,
       read_payload completions r = Some (reads, complete))
  /\ (forall (ec : error_code) (len : nat) (r : payload_read)
             (rest : list (error_code * nat)),
        length_remaining r < len ->
        read_payload ((ec, len) :: rest) r = None).
Proof.
  split.
  - intros completions.
    induction completions as [|[ec len] rest IH]; intros r H; simpl.
    + eauto.
    + simpl in H. unfold after_read_payload.
      destruct (len <? length_remaining r)%nat eqn:Hlt.
      * apply Nat.ltb_lt in Hlt.
        destruct (IH (mk_payload_read (payload_data r + len)
                        (length_remaining r - len)))
          as (reads & complete & E); [simpl; lia|].
        rewrite E. eauto.
      * apply Nat.ltb_ge in Hlt.
        assert (Heq : len = length_remaining r) by lia.
        rewrite (proj2 (Nat.eqb_eq _ _) Heq). eauto.
  - intros ec len r rest H. simpl. unfold after_read_payload.
    rewrite (proj2 (Nat.ltb_ge _ _)) by lia.
    now rewrite (proj2 (Nat.eqb_neq _ _)) by lia.
Qed.

(** X4. An error of a read does not end the reading of a payload: the
    handler does not look at [ec] beyond an empty branch, so a read that
    fails without bytes is issued again as it was, for as long as it
    fails. *)
Theorem read_payload_error_repeats (ec : error_code) (n : nat)
    (r : payload_read) :
  0 < length_remaining r ->
  read_payload (repeat (ec, 0) n) r = Some (repeat r (S n), false).
Proof.
  intros Hpos. induction n as [|n IH]; simpl.
  - reflexivity.
  - unfold after_read_payload. rewrite (proj2 (Nat.ltb_lt _ _) Hpos).
    replace (mk_payload_read (payload_data r + 0) (length_remaining r - 0))
      with r by (destruct r; simpl; f_equal; lia).
    simpl in IH. now rewrite IH.
Qed.

(** ** The theorems at sample data *)

Lemma pop_ready_buffers_fifo_witness :
  (2 < List.length (Queue.m_awaiting_buffers sample_queue)
   /\ Queue.pop_ready_buffers 2 [] sample_queue =
        (["g1"; "g2"], Queue.mk_ws_outgoing_data false ["g3"]))
  /\ (List.length ["g3"] <= 10
      /\ Queue.pop_ready_buffers 10 [] (Queue.mk_ws_outgoing_data false ["g3"])
         = (["g3"], Queue.mk_ws_outgoing_data false [])).
Proof.
  split; split.
  - simpl; lia.
  - apply (proj2 (@pop_ready_buffers_fifo string 2 sample_queue)).
    simpl; lia.
  - simpl; lia.
  - apply (proj1 (@pop_ready_buffers_fifo string 10
                    (Queue.mk_ws_outgoing_data false ["g3"]))).
    simpl; lia.
Defined.

Lemma append_pop_fifo_witness :
  Queue.m_close_when_done sample_queue = false
  /\ Queue.append ["g4"] sample_queue =
       Some (Queue.mk_ws_outgoing_data false ["g1"; "g2"; "g3"; "g4"]).
Proof.
  split.
  - reflexivity.
  - apply (proj1 (@append_pop_fifo string) ["g4"] sample_queue).
    reflexivity.
Defined.

Lemma pop_ready_buffers_container_asymmetry_witness :
  ["g0"] <> ([] : list string)
  /\ fst (Queue.pop_ready_buffers 3 ["g0"] sample_queue)
     = ["g1"; "g2"; "g3"]
  /\ fst (Queue.pop_ready_buffers 2 ["g0"] sample_queue)
     = ["g0"; "g1"; "g2"].
Proof.
  assert (Hne : ["g0"] <> ([] : list string)) by discriminate.
  split; [exact Hne|]. split.
  - apply (proj1 (@pop_ready_buffers_container_asymmetry string 3 ["g0"]
                    sample_queue Hne)).
    simpl; lia.
  - apply (proj2 (@pop_ready_buffers_container_asymmetry string 2 ["g0"]
                    sample_queue Hne)).
    simpl; lia.
Defined.

Lemma init_write_if_necessary_single_write_witness :
  OutputCtx.transmitting (m_resp_out_ctx writing_connection) = true
  /\ init_write_if_necessary 64 writing_connection
     = Some (tt, writing_connection, []).
Proof.
  split.
  - reflexivity.
  - apply (proj1 (@init_write_if_necessary_single_write string 64)).
    reflexivity.
Defined.

Lemma write_data_impl_after_close_is_ignored_witness :
  (is_open (m_socket (request_close notifying_connection)) = false
   \/ Queue.close_when_done
        (m_awaiting_buffers (request_close notifying_connection)) = true)
  /\ exists msg,
       write_data_impl 64 ["g1"] (request_close notifying_connection)
       = Some (tt, request_close notifying_connection,
               [ev_log warn 7%N msg]).
Proof.
  assert (H : is_open (m_socket (request_close notifying_connection)) = false
              \/ Queue.close_when_done
                   (m_awaiting_buffers (request_close notifying_connection))
                 = true) by (right; reflexivity).
  split; [exact H|].
  apply (proj1 (@write_data_impl_after_close_is_ignored string 64 ["g1"]
                  (request_close notifying_connection)) H).
Defined.

Lemma after_write_cases_witness :
  is_open (m_socket writing_connection) = true
  /\ exists c' tr,
       init_write_if_necessary 64
         (with_resp_out_ctx
            (OutputCtx.done (m_resp_out_ctx writing_connection))
            writing_connection)
       = Some (tt, c', tr)
       /\ after_write 64 ec_success 2 writing_connection
          = Some (tt, c', ev_log trace 7%N msg_outgoing_data_sent :: tr).
Proof.
  split.
  - reflexivity.
  - apply (proj1 (proj2 (@after_write_cases string 64 2 writing_connection))).
    reflexivity.
Defined.

Lemma close_request_idempotent_witness :
  Queue.close_when_done
    (m_awaiting_buffers (request_close writing_connection)) = true
  /\ graceful_close 64 (request_close writing_connection)
     = Some (tt, request_close writing_connection, []).
Proof.
  split.
  - reflexivity.
  - apply (proj1 (proj2 (@close_request_idempotent string 64))).
    reflexivity.
Defined.

Lemma append_assertion_never_fails_witness :
  Queue.close_when_done
    (m_awaiting_buffers (request_close writing_connection)) = true
  /\ append ["g3"] (request_close writing_connection) = None.
Proof.
  split.
  - reflexivity.
  - apply (proj1 (proj2 (@append_assertion_never_fails string 64))).
    reflexivity.
Defined.

(** ** Sample runs *)

(** Scenario A: two appends, one pop. *)
Example scenario_append_append_pop :
  Queue.run_queue
    [Queue.q_append ["g1"]; Queue.q_append ["g2"]; Queue.q_pop_ready 10]
    (Queue.new_queue string)
  = Some ([["g1"; "g2"]], Queue.mk_ws_outgoing_data false []).
Proof. reflexivity. Qed.

(** Scenario B: a partial pop, then the rest. *)
Example scenario_partial_pop :
  Queue.run_queue
    [Queue.q_append ["g1"; "g2"; "g3"]; Queue.q_pop_ready 2;
     Queue.q_pop_ready 10]
    (Queue.new_queue string)
  = Some ([["g1"; "g2"]; ["g3"]], Queue.mk_ws_outgoing_data false []).
Proof. reflexivity. Qed.

Example sample_ops_run :
  Queue.run_queue sample_ops (Queue.new_queue string)
  = Some ([["g1"; "g2"]; ["g3"; "g4"]], Queue.mk_ws_outgoing_data false [])
  /\ Queue.submitted sample_ops = ["g1"; "g2"; "g3"; "g4"].
Proof. split; reflexivity. Qed.

(** A write fails, then the user closes: the handler hears of the failure
    and is not called again; the failed write stays marked as under way,
    so the close does not reach the socket. *)
Example failed_write_then_close :
  option_map (fun w => (history w, writes_in_flight w))
    (run 64
       [op_write_data ["g1"]; op_write_completed (ec_failure "reset") 0;
        op_close]
       (start notifying_connection))
  = Some ([ev_log trace 7%N (msg_sending_resp_data 1);
           ev_async_write ["g1"];
           ev_log error 7%N (msg_unable_to_write "reset");
           ev_close_handler "reset"], 0).
Proof. reflexivity. Qed.

(** Two writes and a close: the second write waits for the first, the
    close waits for both, and the handler is called once. *)
Example write_write_close :
  option_map (fun w => (history w, is_open (m_socket (conn w))))
    (run 64
       [op_write_data ["g1"]; op_write_data ["g2"]; op_close;
        op_write_completed ec_success 2; op_write_completed ec_success 2;
        op_write_data ["g3"]; op_close]
       (start notifying_connection))
  = Some ([ev_log trace 7%N (msg_sending_resp_data 1);
           ev_async_write ["g1"];
           ev_log trace 7%N msg_outgoing_data_sent;
           ev_log trace 7%N (msg_sending_resp_data 1);
           ev_async_write ["g2"];
           ev_log trace 7%N msg_outgoing_data_sent;
           ev_close_handler "user initiated";
           ev_log trace 7%N msg_close;
           ev_socket_shutdown_both;
           ev_socket_close;
           ev_log warn 7%N msg_write_while_socket_closed], false).
Proof. reflexivity. Qed.

(** The same on a connection as the constructor leaves it: nobody is
    notified of the close. *)
Example close_of_constructed_connection :
  option_map (fun w => history w)
    (run 64 [op_close] (start fresh_connection))
  = Some [ev_log trace 7%N msg_close;
          ev_socket_shutdown_both;
          ev_socket_close].
Proof. reflexivity. Qed.

(** ** Further theorems at sample data *)

Lemma queue_edge_cases_witness :
  Queue.m_awaiting_buffers sample_queue <> []
  /\ Queue.pop_ready_buffers 0 ["g0"] sample_queue = (["g0"], sample_queue).
Proof.
  assert (H : Queue.m_awaiting_buffers sample_queue <> []) by discriminate.
  split; [exact H|].
  apply (proj1 (@queue_edge_cases string ["g0"] sample_queue) H).
Defined.

Lemma read_payload_contiguous_witness :
  read_payload sample_completions sample_read
  = Some ([mk_payload_read 100 10; mk_payload_read 103 7;
           mk_payload_read 105 5], true)
  /\ delivered 3 sample_completions = length_remaining sample_read.
Proof.
  assert (H : read_payload sample_completions sample_read
              = Some ([mk_payload_read 100 10; mk_payload_read 103 7;
                       mk_payload_read 105 5], true)) by reflexivity.
  split; [exact H|].
  apply (proj2 (@read_payload_contiguous _ _ _ _ H)). reflexivity.
Defined.

Lemma read_payload_assert_witness :
  list_sum (map snd sample_completions) <= length_remaining sample_read
  /\ exists reads complete,
       read_payload sample_completions sample_read = Some (reads, complete).
Proof.
  assert (H : list_sum (map snd sample_completions)
              <= length_remaining sample_read) by (simpl; lia).
  split; [exact H|].
  apply (proj1 read_payload_assert sample_completions sample_read H).
Defined.

Lemma read_payload_error_repeats_witness :
  0 < length_remaining sample_read
  /\ read_payload (repeat (ec_failure "reset", 0) 3) sample_read
     = Some (repeat sample_read 4, false).
Proof.
  assert (H : 0 < length_remaining sample_read) by (simpl; lia).
  split; [exact H|].
  apply (@read_payload_error_repeats (ec_failure "reset") 3 sample_read H).
Defined.

Lemma staging_clear_loaded : staging_clear loaded_connection.
Proof. intros _. reflexivity. Qed.

Lemma writes_in_submission_order_witness :
  staging_clear loaded_connection
  /\ exists w',
       run 2 [op_write_data ["g4"]; op_write_completed ec_success 0;
              op_write_data ["g5"; "g6"]]
         (start loaded_connection) = Some w'
       /\ written (history w')
            ++ Queue.m_awaiting_buffers (m_awaiting_buffers (conn w'))
          = ["g1"; "g2"; "g3"] ++ ["g4"; "g5"; "g6"].
Proof.
  split; [exact staging_clear_loaded|].
  apply (@writes_in_submission_order string 2
           [op_write_data ["g4"]; op_write_completed ec_success 0;
            op_write_data ["g5"; "g6"]]
           loaded_connection staging_clear_loaded);
    reflexivity.
Defined.

Lemma writes_within_max_iov_len_witness :
  staging_clear loaded_connection
  /\ exists w',
       run 2 [op_write_data ["g4"]; op_write_completed ec_success 0]
         (start loaded_connection) = Some w'
       /\ Forall (write_size_ok 2) (history w').
Proof.
  split; [exact staging_clear_loaded|].
  apply (@writes_within_max_iov_len string 2
           [op_write_data ["g4"]; op_write_completed ec_success 0]
           loaded_connection staging_clear_loaded).
Defined.



Lemma failed_write_stalls_connection_witness :
  ec_failure "reset" <> ec_success
  /\ exists w',
       run 64 [op_write_completed (ec_failure "reset") 0; op_close;
               op_write_data ["g3"]]
         (mk_world writing_connection 1 [ev_async_write ["g1"]]) = Some w'
       /\ OutputCtx.transmitting (m_resp_out_ctx (conn w')) = true
       /\ is_open (m_socket (conn w')) = true
       /\ count (@is_async_write string) (history w') = 1
       /\ count (@is_socket_close string) (history w') = 0.
Proof.
  assert (H : ec_failure "reset" <> ec_success) by discriminate.
  split; [exact H|].
  apply (@failed_write_stalls_connection string 64 (ec_failure "reset") 0
           [op_close; op_write_data ["g3"]]
           (mk_world writing_connection 1 [ev_async_write ["g1"]]) H);
    reflexivity.
Defined.

Lemma nothing_after_close_witness :
  run 64 [op_close] (start notifying_connection)
  = Some (mk_world (closed notifying_connection) 0
            (close_events notifying_connection))
  /\ exists w2,
       run 64 [op_write_data ["g1"]; op_close]
         (mk_world (closed notifying_connection) 0
            (close_events notifying_connection)) = Some w2
       /\ is_open (m_socket (conn w2)) = false
       /\ m_awaiting_buffers (conn w2)
          = m_awaiting_buffers (closed notifying_connection)
       /\ m_resp_out_ctx (conn w2)
          = m_resp_out_ctx (closed notifying_connection)
       /\ count (@is_async_write string) (history w2) = 0
       /\ count (@is_socket_close string) (history w2) = 1.
Proof.
  assert (H : run 64 [op_close] (start notifying_connection)
              = Some (mk_world (closed notifying_connection) 0
                        (close_events notifying_connection)))
    by reflexivity.
  split; [exact H|].
  apply (@nothing_after_close string 64 [op_close]
           [op_write_data ["g1"]; op_close] notifying_connection _ H).
  reflexivity.
Defined.

Lemma write_data_impl_accepts_witness :
  is_open (m_socket writing_connection) = true
  /\ write_data_impl 64 ["g3"] writing_connection
     = Some (tt,
             with_awaiting_buffers
               (Queue.mk_ws_outgoing_data false (["g2"] ++ ["g3"]))
               writing_connection,
             []).
Proof.
  split; [reflexivity|].
  apply (proj1 (@write_data_impl_accepts string 64 ["g3"] writing_connection
                  eq_refl eq_refl)).
  reflexivity.
Defined.
